(** * The RTP reader of uvgRTP: receive loop, delivery and frame queue

    A shallow embedding of [src/reader.cc] (class [kvz_rtp::reader]) and of
    the declarations of [src/frame.hh] it relies on, followed by the
    properties of the reception pipeline.

    Conventions of the embedding.
    - A byte is a [Z] in [0, 256); a buffer is a [list Z].
    - A pointer that may be [nullptr] is an [option].
    - The reader object is a record that is passed explicitly; every method
      of the class is a function on that record.
    - What a method does to the outside world (log lines, the user's hook
      being called, sleeping) and every write to the frame queue together
      with the state of the mutex at that moment are appended to the
      [trace_] of the record.  [trace_] is instrumentation: it is not a
      member of the C++ class. *)

From Stdlib Require Import ZArith List Bool Lia.
Import ListNotations.
Open Scope Z_scope.

(** ** frame.hh *)

Definition HEADER_SIZE_RTP : Z := 12.
Definition HEADER_SIZE_OPUS : Z := 1.
Definition HEADER_SIZE_HEVC_RTP : Z := 2.
Definition HEADER_SIZE_HEVC_FU : Z := 1.

Inductive frame_type_t : Type :=
| FRAME_TYPE_GENERIC
| FRAME_TYPE_OPUS
| FRAME_TYPE_HEVC_FU.

(** The frame: the members [reader.cc] addresses and those [frame.hh]
    declares.  The receive loop writes [marker], [ptype], [seq],
    [timestamp], [ssrc], [data], [payload], [payload_len] and [total_len].
    [data] is the owned buffer and [payload] points into it, so [payload] is
    kept as an offset into [data].  [header], [header_len], [data_len] and
    [rtp_fmt] are declared in [frame.hh] and never read or written by
    [reader.cc]: they stay as [alloc_frame] left them; [header] holds the
    bytes of the region it points to.  [frame_type] is the tag handed to
    [alloc_frame]. *)
Record rtp_frame : Type := mk_frame {
  timestamp : Z;
  ssrc : Z;
  seq : Z;
  ptype : Z;
  marker : Z;
  header : list Z;
  header_len : Z;
  data : list Z;
  data_len : Z;
  payload : nat;
  payload_len : Z;
  total_len : Z;
  rtp_fmt : Z;
  frame_type : frame_type_t
}.

Definition frame_ptr : Type := option rtp_frame.

(** The bytes the application sees through [payload] and [payload_len]. *)
Definition payload_bytes (f : rtp_frame) : list Z :=
  firstn (Z.to_nat (payload_len f)) (skipn (payload f) (data f)).

(** Modelled from the spec: [RTP_HEADER_SIZE], whose declaration (util.hh) is
    not among the sources; the spec fixes the RTP header at 12 bytes, as
    [HEADER_SIZE_RTP] does. *)
Definition RTP_HEADER_SIZE : Z := 12.

(** Modelled from the spec: the enumeration [rtp_error_t], whose declaration
    (util.hh) is not among the sources.  The constructors are the codes
    named in [reader.cc]; every other code a format handler may report is
    [RTP_OTHER_ERROR]. *)
Inductive rtp_error_t : Type :=
| RTP_OK
| RTP_NOT_READY
| RTP_INVALID_VALUE
| RTP_SOCKET_ERROR
| RTP_BIND_ERROR
| RTP_OTHER_ERROR (code : Z).

Definition header_size (t : frame_type_t) : Z :=
  match t with
  | FRAME_TYPE_GENERIC => HEADER_SIZE_RTP
  | FRAME_TYPE_OPUS => HEADER_SIZE_RTP
  | FRAME_TYPE_HEVC_FU =>
      HEADER_SIZE_RTP + HEADER_SIZE_HEVC_RTP + HEADER_SIZE_HEVC_FU
  end.

(** Modelled from the spec: [alloc_frame], whose definition (frame.cc) is not
    among the sources.  It
    "sizes the single backing buffer as header-size(frame_type) +
    payload_length" and "never returns a partially-initialized Frame"; on
    failure the caller sees [nullptr].  Whether an allocation succeeds is
    decided by the environment ([ok]).  The header region starts the backing
    buffer and has the size of the frame type's headers, [data_len] is the
    payload length asked for, and the members the spec gives no value for
    are zero. *)
Definition alloc_frame (ok : bool) (len : Z) (type : frame_type_t) : frame_ptr :=
  if ok then
    Some {| timestamp := 0; ssrc := 0; seq := 0; ptype := 0; marker := 0;
            header := repeat 0 (Z.to_nat (header_size type + len));
            header_len := header_size type;
            data := repeat 0 (Z.to_nat (header_size type + len));
            data_len := len;
            payload := 0; payload_len := 0; total_len := 0;
            rtp_fmt := 0;
            frame_type := type |}
  else None.

(** ** Observable effects *)

Definition hook_t : Type := nat.

Inductive log_msg : Type :=
| INFO_starting_to_listen
| ERROR_create_socket
| ERROR_bind
| ERROR_hook_is_nullptr
| INFO_receiver_starting
| DEBUG_got_bytes (ret : Z)
| ERROR_alloc_frame
| WARN_invalid_payload (ret : Z)
| WARN_unrecognized_ptype (pt : Z)
| DEBUG_returning_frame
| DEBUG_fragmentation_unit
| ERROR_process_frame (e : rtp_error_t)
| INFO_receiver_exiting.

Inductive queue_write : Type :=
| QPushBack (f : frame_ptr)
| QEraseBegin.

(** What the reader does to the outside world.  [EvPerror] is
    [perror("frameReceiver")], [EvSocketError] the "Socket error" line of the
    Windows build, [EvPerrorSetsockopt] the [perror] of [start]. *)
Inductive event : Type :=
| EvLog (m : log_msg)
| EvPerror
| EvSocketError (code : Z)
| EvHook (hook : hook_t) (arg : Z) (frame : frame_ptr)
| EvQueueWrite (w : queue_write) (mutex_locked : bool)
| EvSleep (ms : Z)
| EvPerrorSetsockopt.

(** ** class reader *)

(** The members the methods below read or write.  [recv_buffer_] holds the
    bytes of the allocation it points to and [recv_buffer_len_] the length
    handed to [recvfrom]; [frames_mtx_] is [true] while the mutex is locked.
    The socket, the port and the thread handle ([socket_], [src_port_],
    [runner_]) carry no state the properties below depend on: what the
    socket calls answer is given by the environment. *)
Record reader : Type := mk_reader {
  active_ : bool;
  recv_buffer_ : list Z;
  recv_buffer_len_ : Z;
  framesOut_ : list frame_ptr;
  frames_mtx_ : bool;
  recv_hook_arg_ : Z;
  recv_hook_ : option hook_t;
  trace_ : list event
}.

Definition set_active (b : bool) (r : reader) : reader :=
  mk_reader b (recv_buffer_ r) (recv_buffer_len_ r) (framesOut_ r) (frames_mtx_ r)
            (recv_hook_arg_ r) (recv_hook_ r) (trace_ r).

Definition set_recv_buffer (buf : list Z) (r : reader) : reader :=
  mk_reader (active_ r) buf (recv_buffer_len_ r) (framesOut_ r) (frames_mtx_ r)
            (recv_hook_arg_ r) (recv_hook_ r) (trace_ r).

Definition set_recv_buffer_len (n : Z) (r : reader) : reader :=
  mk_reader (active_ r) (recv_buffer_ r) n (framesOut_ r) (frames_mtx_ r)
            (recv_hook_arg_ r) (recv_hook_ r) (trace_ r).

Definition set_framesOut (q : list frame_ptr) (r : reader) : reader :=
  mk_reader (active_ r) (recv_buffer_ r) (recv_buffer_len_ r) q (frames_mtx_ r)
            (recv_hook_arg_ r) (recv_hook_ r) (trace_ r).

Definition set_frames_mtx (b : bool) (r : reader) : reader :=
  mk_reader (active_ r) (recv_buffer_ r) (recv_buffer_len_ r) (framesOut_ r) b
            (recv_hook_arg_ r) (recv_hook_ r) (trace_ r).

Definition set_recv_hook_arg (a : Z) (r : reader) : reader :=
  mk_reader (active_ r) (recv_buffer_ r) (recv_buffer_len_ r) (framesOut_ r)
            (frames_mtx_ r) a (recv_hook_ r) (trace_ r).

Definition set_recv_hook (h : option hook_t) (r : reader) : reader :=
  mk_reader (active_ r) (recv_buffer_ r) (recv_buffer_len_ r) (framesOut_ r)
            (frames_mtx_ r) (recv_hook_arg_ r) h (trace_ r).

Definition emit (e : event) (r : reader) : reader :=
  mk_reader (active_ r) (recv_buffer_ r) (recv_buffer_len_ r) (framesOut_ r)
            (frames_mtx_ r) (recv_hook_arg_ r) (recv_hook_ r) (trace_ r ++ [e]).

(** [reader::reader]: inactive, no hook, empty queue.  [recv_buffer_] and
    [recv_buffer_len_] are not in the initialiser list: until [start] the
    pointer and the length are indeterminate.  The empty list stands for the
    pointer that was never set (an allocated buffer has 4096 bytes), and 0
    for the length that was never set. *)
Definition reader_new : reader :=
  {| active_ := false; recv_buffer_ := []; recv_buffer_len_ := 0;
     framesOut_ := [];
     frames_mtx_ := false; recv_hook_arg_ := 0; recv_hook_ := None;
     trace_ := [] |}.

Section Start.

(** [MAX_PACKET] is declared in a header that is not among the sources: its
    value is a parameter. *)
Variable MAX_PACKET : Z.

(** [reader::start].  The three booleans say whether [socket],
    [setsockopt] and [bind] succeed: a failure of [socket] or [bind] is
    logged and ends [start] with an error, a failure of [setsockopt] is only
    reported through [perror].  On success the length handed to [recvfrom]
    is [MAX_PACKET], whereas the buffer allocated has 4096 bytes; its
    contents are unspecified and taken as zeros.  ([new] throws instead of
    returning [nullptr], so the branch of lines 61-64 never runs.)  The
    receive thread spawned at the end is [frame_receiver]. *)
Definition start (socket_ok setsockopt_ok bind_ok : bool) (r : reader)
  : rtp_error_t * reader :=
  let r1 := emit (EvLog INFO_starting_to_listen) r in
  if negb socket_ok then (RTP_SOCKET_ERROR, emit (EvLog ERROR_create_socket) r1)
  else
    let r2 := if setsockopt_ok then r1 else emit EvPerrorSetsockopt r1 in
    if negb bind_ok then (RTP_BIND_ERROR, emit (EvLog ERROR_bind) r2)
    else
      (RTP_OK,
       set_active true
         (set_recv_buffer (repeat 0 4096%nat)
            (set_recv_buffer_len MAX_PACKET r2))).

End Start.

(** [reader::active] *)
Definition active (r : reader) : bool := active_ r.

(** [reader::get_recv_buffer] and [reader::get_recv_buffer_len] *)
Definition get_recv_buffer (r : reader) : list Z := recv_buffer_ r.

(** [reader::add_outgoing_frame] *)
Definition add_outgoing_frame (frame : frame_ptr) (r : reader) : reader :=
  match frame with
  | None => r
  | Some _ =>
      emit (EvQueueWrite (QPushBack frame) (frames_mtx_ r))
           (set_framesOut (framesOut_ r ++ [frame]) r)
  end.

(** [reader::recv_hook_installed] *)
Definition recv_hook_installed (r : reader) : bool :=
  match recv_hook_ r with
  | Some _ => true
  | None => false
  end.

(** [reader::install_recv_hook] *)
Definition install_recv_hook (arg : Z) (hook : option hook_t) (r : reader) : reader :=
  match hook with
  | None => emit (EvLog ERROR_hook_is_nullptr) r
  | Some _ => set_recv_hook_arg arg (set_recv_hook hook r)
  end.

(** [reader::recv_hook]: the user's function runs on the calling thread; the
    call is recorded, and the function is taken not to touch the reader. *)
Definition recv_hook (frame : frame_ptr) (r : reader) : reader :=
  match recv_hook_ r with
  | Some h => emit (EvHook h (recv_hook_arg_ r) frame) r
  | None => r
  end.

(** *** pull_frame and the threads around it *)

(** What the other threads may do to the reader while the consumer is inside
    [pull_frame]: the receive thread enqueues through [add_outgoing_frame],
    and the destructor clears [active_] (nothing else in the class does). *)
Inductive env_action : Type :=
| EnvEnqueue (f : frame_ptr)
| EnvDeactivate.

Definition env_step (a : env_action) (r : reader) : reader :=
  match a with
  | EnvEnqueue f => add_outgoing_frame f r
  | EnvDeactivate => set_active false r
  end.

Definition env_run (acts : list env_action) (r : reader) : reader :=
  fold_left (fun r a => env_step a r) acts r.

(** A schedule places the other threads' actions at the points where
    [pull_frame] can be interleaved with them: during each sleep of the
    waiting loop, between the loop and the test of [active()], and between
    that test and taking the mutex. *)
Record schedule : Type := mk_schedule {
  sleeps : list (list env_action);
  before_check : list env_action;
  before_lock : list env_action
}.

Inductive wait_result : Type :=
| StillWaiting (r : reader)
| WaitOver (r : reader).

(** [while (framesOut_.empty() && this->active()) sleep_for(20ms);]
    One element of [sl] is consumed per sleep; when [sl] is used up and the
    condition still holds the call is still waiting. *)
Fixpoint pull_wait (sl : list (list env_action)) (r : reader) : wait_result :=
  if (match framesOut_ r with [] => true | _ :: _ => false end) && active r then
    match sl with
    | [] => StillWaiting r
    | acts :: sl' => pull_wait sl' (env_run acts (emit (EvSleep 20) r))
    end
  else WaitOver r.

Inductive pull_result : Type :=
| PullWaiting (r : reader)
| PullBlockedOnMutex (r : reader)
| PullUndefined (r : reader)
| PullReturned (frame : frame_ptr) (r : reader).

(** [reader::pull_frame].  [PullUndefined] is [front()] on an empty vector;
    [PullBlockedOnMutex] is [lock()] on a mutex that is already held. *)
Definition pull_frame (sch : schedule) (r : reader) : pull_result :=
  match pull_wait (sleeps sch) r with
  | StillWaiting r' => PullWaiting r'
  | WaitOver r1 =>
      let r2 := env_run (before_check sch) r1 in
      if negb (active r2) then PullReturned None r2
      else
        let r3 := env_run (before_lock sch) r2 in
        if frames_mtx_ r3 then PullBlockedOnMutex r3
        else
          let r4 := set_frames_mtx true r3 in
          match framesOut_ r4 with
          | [] => PullUndefined r4
          | nextFrame :: rest =>
              let r5 := emit (EvQueueWrite QEraseBegin (frames_mtx_ r4))
                             (set_framesOut rest r4) in
              PullReturned nextFrame (set_frames_mtx false r5)
          end
  end.

(** A call of [pull_frame] during which no other thread runs. *)
Definition quiet : schedule := mk_schedule [] [] [].

(** *** Sequences of queue operations *)

(** Successive calls of [add_outgoing_frame], first element first. *)
Definition enqueue_all (ptrs : list frame_ptr) (r : reader) : reader :=
  fold_left (fun r f => add_outgoing_frame f r) ptrs r.

(** [n] successive calls of [pull_frame] with no other thread running; the
    results are collected until a call does not return. *)
Fixpoint pull_many (n : nat) (r : reader) : list frame_ptr * reader :=
  match n with
  | O => ([], r)
  | S n' =>
      match pull_frame quiet r with
      | PullReturned f r' =>
          let '(fs, r'') := pull_many n' r' in (f :: fs, r'')
      | _ => ([], r)
      end
  end.

(** Calls of the producer and of the consumer in any order.  [run_ops] gives
    the frames pulled and is [None] when some pull does not return. *)
Inductive queue_op : Type :=
| OpEnqueue (f : frame_ptr)
| OpPull.

Fixpoint run_ops (ops : list queue_op) (r : reader) : option (list frame_ptr * reader) :=
  match ops with
  | [] => Some ([], r)
  | OpEnqueue f :: ops' => run_ops ops' (add_outgoing_frame f r)
  | OpPull :: ops' =>
      match pull_frame quiet r with
      | PullReturned f r' =>
          match run_ops ops' r' with
          | Some (fs, r'') => Some (f :: fs, r'')
          | None => None
          end
      | _ => None
      end
  end.

(** The non-null frames the producer passes in [ops], in order. *)
Fixpoint enqueued (ops : list queue_op) : list frame_ptr :=
  match ops with
  | [] => []
  | OpEnqueue (Some f) :: ops' => Some f :: enqueued ops'
  | _ :: ops' => enqueued ops'
  end.

(** The reader after [n] rounds of the waiting loop of [pull_frame] during
    which nothing else happened. *)
Fixpoint slept (n : nat) (r : reader) : reader :=
  match n with
  | O => r
  | S n' => slept n' (emit (EvSleep 20) r)
  end.

(** No action of the list puts a frame on the queue. *)
Definition enqueues_nothing (acts : list env_action) : bool :=
  forallb (fun a => match a with
                    | EnvEnqueue (Some _) => false
                    | _ => true
                    end) acts.

Definition schedule_enqueues_nothing (sch : schedule) : bool :=
  forallb enqueues_nothing (sleeps sch) &&
  enqueues_nothing (before_check sch) && enqueues_nothing (before_lock sch).

(** ** What the receive loop takes from outside reader.cc *)

(** A format handler, called as [frame = process_x_frame(frame, fu, err)]:
    it returns the frame to deliver (or [nullptr]) and may change the
    fragment vector [fu] and the error variable [err], both passed by
    reference. *)
Definition handler : Type :=
  rtp_frame -> list rtp_frame -> rtp_error_t ->
  frame_ptr * list rtp_frame * rtp_error_t.

(** What [frame_receiver] uses and is declared elsewhere (util.hh,
    rtp_opus.hh, rtp_hevc.hh): the payload-type constants and the three
    format handlers; and the platform ([_WIN32] defined or not). *)
Class Externals : Type := {
  RTP_FORMAT_GENERIC : Z;
  RTP_FORMAT_OPUS : Z;
  RTP_FORMAT_HEVC : Z;
  win32 : bool;
  process_opus_frame : handler;
  process_hevc_frame : handler;
  process_generic_frame : handler
}.

(** The labels of a C++ [switch] are pairwise distinct. *)
Definition case_labels_distinct (ext : Externals) : Prop :=
  RTP_FORMAT_OPUS <> RTP_FORMAT_HEVC /\
  RTP_FORMAT_OPUS <> RTP_FORMAT_GENERIC /\
  RTP_FORMAT_HEVC <> RTP_FORMAT_GENERIC.

(** The Winsock code of "operation would block", written [10035] in the
    source. *)
Definition WSAEWOULDBLOCK : Z := 10035.

(** One call of [recvfrom]: [RecvFail] is [ret == -1] with the error code the
    platform reports; [RecvData] is a call that returned [ret = length dgram]
    and wrote the bytes [dgram] from the start of the receive buffer on.
    [recvfrom] is given the length [get_recv_buffer_len()], so it never
    returns more than that.  [alloc_ok] tells whether the [alloc_frame] of
    this iteration succeeds. *)
Inductive recv_result : Type :=
| RecvFail (code : Z)
| RecvData (dgram : list Z) (alloc_ok : bool).

(** The receive buffer is reused: bytes beyond the datagram keep their old
    contents.  The bytes are written as to flat memory: nothing here stops a
    datagram longer than the buffer, which in the source is a write past the
    4096 bytes allocated.  What follows says nothing faithful about such a
    datagram; the statements about the bytes of a frame are made for
    datagrams that fit ([fits_recv_buffer]). *)
Definition recv_into (buf dgram : list Z) : list Z :=
  dgram ++ skipn (length dgram) buf.

(** The datagram is no longer than the buffer [recv_buffer_] points to. *)
Definition fits_recv_buffer (r : reader) (dgram : list Z) : Prop :=
  (length dgram <= length (recv_buffer_ r))%nat.


(** [ntohs(*(uint16_t *)&buf[i])] and [ntohl(*(uint32_t *)&buf[i])]: the
    bytes from [i] on read as a big-endian number. *)
Definition ntohs_at (buf : list Z) (i : nat) : Z :=
  Z.lor (Z.shiftl (nth i buf 0) 8) (nth (i + 1) buf 0).

Definition ntohl_at (buf : list Z) (i : nat) : Z :=
  Z.lor (Z.shiftl (nth i buf 0) 24)
    (Z.lor (Z.shiftl (nth (i + 1) buf 0) 16)
       (Z.lor (Z.shiftl (nth (i + 2) buf 0) 8) (nth (i + 3) buf 0))).

(** Lines 177-181: the fixed RTP header fields read from [inbuf]. *)
Definition set_rtp_fields (inbuf : list Z) (f : rtp_frame) : rtp_frame :=
  {| timestamp := ntohl_at inbuf 4;
     ssrc := ntohl_at inbuf 8;
     seq := ntohs_at inbuf 2;
     ptype := Z.land (nth 1 inbuf 0) 127;
     marker := if Z.land (nth 1 inbuf 0) 128 =? 0 then 0 else 1;
     header := header f;
     header_len := header_len f;
     data := data f;
     data_len := data_len f;
     payload := payload f;
     payload_len := payload_len f;
     total_len := total_len f;
     rtp_fmt := rtp_fmt f;
     frame_type := frame_type f |}.

(** Lines 188-198: a fresh buffer of [ret] bytes receives a copy of the
    datagram; the payload starts after the RTP header.  ([new] throws instead
    of returning [nullptr], so the test of line 193 never fires.) *)
Definition set_rtp_data (inbuf : list Z) (ret : Z) (f : rtp_frame) : rtp_frame :=
  {| timestamp := timestamp f;
     ssrc := ssrc f;
     seq := seq f;
     ptype := ptype f;
     marker := marker f;
     header := header f;
     header_len := header_len f;
     data := firstn (Z.to_nat ret) inbuf;
     data_len := data_len f;
     payload := Z.to_nat RTP_HEADER_SIZE;
     payload_len := ret - RTP_HEADER_SIZE;
     total_len := ret;
     rtp_fmt := rtp_fmt f;
     frame_type := frame_type f |}.

(** The local variables of [frame_receiver] that live across iterations,
    with the reader they work on. *)
Record loop_state : Type := mk_loop {
  rd : reader;
  fu : list rtp_frame;
  err : rtp_error_t
}.

Inductive iteration : Type :=
| IterReturn (s : loop_state)
| IterContinue (s : loop_state).

Inductive loop_result : Type :=
| LoopBlocked (s : loop_state)
| LoopReturned (s : loop_state)
| LoopExited (s : loop_state).

(** The frames handed to the application, oldest first: the frames the hook
    was called with and the frames pushed on the queue. *)
Fixpoint delivered (tr : list event) : list frame_ptr :=
  match tr with
  | [] => []
  | EvHook _ _ f :: tr' => f :: delivered tr'
  | EvQueueWrite (QPushBack f) _ :: tr' => f :: delivered tr'
  | _ :: tr' => delivered tr'
  end.

(** The writes to [framesOut_] made while the mutex was not locked. *)
Fixpoint unlocked_writes (tr : list event) : list queue_write :=
  match tr with
  | [] => []
  | EvQueueWrite w false :: tr' => w :: unlocked_writes tr'
  | _ :: tr' => unlocked_writes tr'
  end.

(** What [frame_receiver] reads from a datagram of more than 12 bytes. *)
Definition datagram_ptype (dgram : list Z) : Z := Z.land (nth 1 dgram 0) 127.
Definition datagram_seq (dgram : list Z) : Z := ntohs_at dgram 2.
Definition rtp_payload (dgram : list Z) : list Z := skipn 12 dgram.

(** The frame lines 170-198 build from a datagram of more than 12 bytes that
    fits the receive buffer, whatever the buffer held before.  The members
    these lines do not write are those of the frame
    [alloc_frame (length dgram) FRAME_TYPE_GENERIC] returned. *)
Definition frame_of_datagram (dgram : list Z) : rtp_frame :=
  {| timestamp := ntohl_at dgram 4;
     ssrc := ntohl_at dgram 8;
     seq := datagram_seq dgram;
     ptype := datagram_ptype dgram;
     marker := if Z.land (nth 1 dgram 0) 128 =? 0 then 0 else 1;
     header := repeat 0 (Z.to_nat (header_size FRAME_TYPE_GENERIC
                                   + Z.of_nat (length dgram)));
     header_len := header_size FRAME_TYPE_GENERIC;
     data := dgram;
     data_len := Z.of_nat (length dgram);
     payload := 12;
     payload_len := Z.of_nat (length dgram) - 12;
     total_len := Z.of_nat (length dgram);
     rtp_fmt := 0;
     frame_type := FRAME_TYPE_GENERIC |}.

(** Between [r] and [r'] no frame was handed to the application and the
    delivery set-up did not change. *)
Definition nothing_delivered (r r' : reader) : Prop :=
  active r' = active r /\
  framesOut_ r' = framesOut_ r /\
  frames_mtx_ r' = frames_mtx_ r /\
  recv_hook_ r' = recv_hook_ r /\
  recv_hook_arg_ r' = recv_hook_arg_ r /\
  delivered (trace_ r') = delivered (trace_ r).

(** The state a result of the loop ends in. *)
Definition loop_final (res : loop_result) : loop_state :=
  match res with
  | LoopBlocked s => s
  | LoopReturned s => s
  | LoopExited s => s
  end.

(** A handler that, given a frame with a payload, never reports success with
    a frame without one. *)
Definition keeps_payload (h : handler) : Prop :=
  forall f fu e f' fu',
    0 < payload_len f -> h f fu e = (Some f', fu', RTP_OK) -> 0 < payload_len f'.

(** Every frame of the list has a payload (a null pointer, which the hook
    may be called with, is not a frame). *)
Definition all_with_payload (ps : list frame_ptr) : Prop :=
  Forall (fun p => match p with
                   | Some f => 0 < payload_len f
                   | None => True
                   end) ps.

Section Receiver.
Context {ext : Externals}.

(** Lines 157-165. *)
Definition report_recv_error (code : Z) (r : reader) : reader :=
  if win32 then
    if negb (code =? WSAEWOULDBLOCK) then emit (EvSocketError code) r else r
  else emit EvPerror r.

(** Lines 200-217: the [switch] on the payload type. *)
Definition dispatch (frame : rtp_frame) (s : loop_state)
  : frame_ptr * loop_state :=
  if ptype frame =? RTP_FORMAT_OPUS then
    let '(f, fu', e) := process_opus_frame frame (fu s) (err s) in
    (f, mk_loop (rd s) fu' e)
  else if ptype frame =? RTP_FORMAT_HEVC then
    let '(f, fu', e) := process_hevc_frame frame (fu s) (err s) in
    (f, mk_loop (rd s) fu' e)
  else if ptype frame =? RTP_FORMAT_GENERIC then
    let '(f, fu', e) := process_generic_frame frame (fu s) (err s) in
    (f, mk_loop (rd s) fu' e)
  else
    (Some frame,
     mk_loop (emit (EvLog (WARN_unrecognized_ptype (ptype frame))) (rd s))
             (fu s) RTP_INVALID_VALUE).

(** Lines 219-230. *)
Definition hand_over (frame : frame_ptr) (e : rtp_error_t) (r : reader) : reader :=
  match e with
  | RTP_OK =>
      let r1 := emit (EvLog DEBUG_returning_frame) r in
      if recv_hook_installed r1 then recv_hook frame r1
      else add_outgoing_frame frame r1
  | RTP_NOT_READY => emit (EvLog DEBUG_fragmentation_unit) r
  | _ => emit (EvLog (ERROR_process_frame e)) r
  end.

(** The body of the [while] loop for one result of [recvfrom]. *)
Definition receive_one (ev : recv_result) (s : loop_state) : iteration :=
  match ev with
  | RecvFail code =>
      IterReturn (mk_loop (report_recv_error code (rd s)) (fu s) (err s))
  | RecvData dgram alloc_ok =>
      let ret := Z.of_nat (length dgram) in
      let inbuf := recv_into (recv_buffer_ (rd s)) dgram in
      let r1 := emit (EvLog (DEBUG_got_bytes ret))
                     (set_recv_buffer inbuf (rd s)) in
      match alloc_frame alloc_ok ret FRAME_TYPE_GENERIC with
      | None =>
          IterContinue (mk_loop (emit (EvLog ERROR_alloc_frame) r1) (fu s) (err s))
      | Some frame0 =>
          let frame1 := set_rtp_fields inbuf frame0 in
          if ret - RTP_HEADER_SIZE <=? 0 then
            IterContinue
              (mk_loop (emit (EvLog (WARN_invalid_payload ret)) r1) (fu s) (err s))
          else
            let frame2 := set_rtp_data inbuf ret frame1 in
            let '(frame3, s') := dispatch frame2 (mk_loop r1 (fu s) (err s)) in
            IterContinue
              (mk_loop (hand_over frame3 (err s') (rd s')) (fu s') (err s'))
      end
  end.

(** The [while (reader->active())] loop over the successive results of
    [recvfrom].  When the results are used up the thread is blocked in
    [recvfrom]. *)
Fixpoint receiver_loop (evs : list recv_result) (s : loop_state) : loop_result :=
  if active (rd s) then
    match evs with
    | [] => LoopBlocked s
    | ev :: evs' =>
        match receive_one ev s with
        | IterReturn s' => LoopReturned s'
        | IterContinue s' => receiver_loop evs' s'
        end
    end
  else LoopExited (mk_loop (emit (EvLog INFO_receiver_exiting) (rd s)) (fu s) (err s)).

(** [reader::frame_receiver].  [err] is declared without an initial value:
    [err0] is whatever it holds. *)
Definition frame_receiver (evs : list recv_result) (r : reader) (err0 : rtp_error_t)
  : loop_result :=
  receiver_loop evs (mk_loop (emit (EvLog INFO_receiver_starting) r) [] err0).

End Receiver.

(** ** The format handlers, modelled from the spec *)

Definition set_frame_type (t : frame_type_t) (f : rtp_frame) : rtp_frame :=
  {| timestamp := timestamp f; ssrc := ssrc f; seq := seq f;
     ptype := ptype f; marker := marker f;
     header := header f; header_len := header_len f;
     data := data f; data_len := data_len f;
     payload := payload f; payload_len := payload_len f;
     total_len := total_len f; rtp_fmt := rtp_fmt f; frame_type := t |}.

Module generic.

(** Modelled from the spec: [process_generic_frame], whose definition is not
    among the sources.
    It "wraps the post-RTP-header payload bytes as one complete Frame per
    datagram, frame-type Generic.  No state, no reassembly.  Always succeeds
    if the Header Codec succeeded." *)
Definition process_generic_frame : handler :=
  fun frame fu _ => (Some (set_frame_type FRAME_TYPE_GENERIC frame), fu, RTP_OK).

End generic.

Module opus.

(** Modelled from the spec: [process_opus_frame], whose definition
    (rtp_opus.cc) is not among the sources.
    It is "identical in shape to Generic but tags the frame with the Opus
    frame type"; the Opus header is "currently a no-op pass-through". *)
Definition process_opus_frame : handler :=
  fun frame fu _ => (Some (set_frame_type FRAME_TYPE_OPUS frame), fu, RTP_OK).

End opus.

Module hevc.

(** Modelled from the spec: the NAL unit type that "indicates FU".  The spec
    gives no number; 49 is the fragmentation-unit type of the HEVC RTP
    payload format. *)
Definition NAL_TYPE_FU : Z := 49.

(** Modelled from the spec: the "HEVC RTP header: 2 bytes encoding NAL unit
    type and layer/TID"; the type is the six bits after the first bit. *)
Definition nal_type (pl : list Z) : Z :=
  Z.land (Z.shiftr (nth 0 pl 0) 1) 63.

(** Modelled from the spec: the "HEVC FU header: 1 byte encoding fragment
    START/END flags and the real NAL unit type", third byte of the payload:
    START is bit 7, END is bit 6, the type is the low six bits. *)
Definition fu_header (pl : list Z) : Z := nth 2 pl 0.
Definition fu_start (pl : list Z) : bool := Z.testbit (fu_header pl) 7.
Definition fu_end (pl : list Z) : bool := Z.testbit (fu_header pl) 6.
Definition fu_nal_type (pl : list Z) : Z := Z.land (fu_header pl) 63.

(** Modelled from the spec: the "synthesized NAL header (reconstructed from
    the outer HEVC RTP header layer/TID bits plus the FU header's real NAL
    type)". *)
Definition nal_header (pl : list Z) : list Z :=
  [Z.lor (Z.land (nth 0 pl 0) 129) (Z.shiftl (fu_nal_type pl) 1); nth 1 pl 0].

(** Modelled from the spec: a fragment's "payload bytes (excluding the FU
    header byte itself)", after the two bytes of the HEVC RTP header. *)
Definition fu_payload (f : rtp_frame) : list Z :=
  skipn 3 (payload_bytes f).

Fixpoint last_seen (fu : list rtp_frame) : option rtp_frame :=
  match fu with
  | [] => None
  | [f] => Some f
  | _ :: fu' => last_seen fu'
  end.

(** Modelled from the spec: "the incoming sequence number is exactly one
    greater than last seen (accounting for 16-bit wraparound)". *)
Definition follows (prev cur : rtp_frame) : bool :=
  seq cur =? (seq prev + 1) mod 65536.

(** Modelled from the spec: the context buffer, "a synthesized NAL header
    followed by" the payload bytes of the fragments in the order they were
    accepted. *)
Definition reassembled (frags : list rtp_frame) : list Z :=
  match frags with
  | [] => []
  | first :: _ => nal_header (payload_bytes first) ++ concat (map fu_payload frags)
  end.

(** Modelled from the spec: "convert the context buffer into a Frame
    (frame-type HEVC)".  The spec does not say which fragment gives the RTP
    fields, the header region and the format of that frame; the one that
    completes it is taken. *)
Definition completed (frags : list rtp_frame) (last : rtp_frame) : rtp_frame :=
  {| timestamp := timestamp last; ssrc := ssrc last; seq := seq last;
     ptype := ptype last; marker := marker last;
     header := header last; header_len := header_len last;
     data := reassembled frags;
     data_len := Z.of_nat (length (reassembled frags));
     payload := 0;
     payload_len := Z.of_nat (length (reassembled frags));
     total_len := Z.of_nat (length (reassembled frags));
     rtp_fmt := rtp_fmt last;
     frame_type := FRAME_TYPE_HEVC_FU |}.

(** Modelled from the spec: [process_hevc_frame], whose definition
    (rtp_hevc.cc) is not among the sources.
    Section 4.5 of the spec: a non-fragmented NAL is wrapped and is complete;
    a START fragment discards any live context and opens a new one; a middle
    fragment needs a live context and the successor sequence number, else the
    context is discarded; an END fragment with continuity completes the
    frame and destroys the context, and without continuity is discarded with
    "not ready".  The fragment vector [fu] of [frame_receiver] is the
    context: it is live when it is not empty. *)
Definition process_hevc_frame : handler :=
  fun frame fu _ =>
    let pl := payload_bytes frame in
    if negb (nal_type pl =? NAL_TYPE_FU) then
      (Some (set_frame_type FRAME_TYPE_HEVC_FU frame), fu, RTP_OK)
    else if fu_start pl then
      (None, [frame], RTP_NOT_READY)
    else
      match last_seen fu with
      | Some prev =>
          if follows prev frame then
            if fu_end pl then
              (Some (completed (fu ++ [frame]) frame), [], RTP_OK)
            else (None, fu ++ [frame], RTP_NOT_READY)
          else (None, [], if fu_end pl then RTP_NOT_READY else RTP_INVALID_VALUE)
      | None => (None, [], if fu_end pl then RTP_NOT_READY else RTP_INVALID_VALUE)
      end.

End hevc.

(** The receive loop with the handlers of the spec; the payload-type
    constants and the platform stay open. *)
Definition spec_externals (g o h : Z) (w : bool) : Externals :=
  {| RTP_FORMAT_GENERIC := g;
     RTP_FORMAT_OPUS := o;
     RTP_FORMAT_HEVC := h;
     win32 := w;
     process_opus_frame := opus.process_opus_frame;
     process_hevc_frame := hevc.process_hevc_frame;
     process_generic_frame := generic.process_generic_frame |}.

(** ** HEVC fragment trains, as datagrams *)

(** A datagram with a payload, of payload type [h], whose HEVC RTP header
    says fragmentation unit. *)
Definition is_fu (h : Z) (dgram : list Z) : bool :=
  (12 <? Z.of_nat (length dgram)) && (datagram_ptype dgram =? h) &&
  (hevc.nal_type (rtp_payload dgram) =? hevc.NAL_TYPE_FU).

Definition is_fu_start (h : Z) (dgram : list Z) : bool :=
  is_fu h dgram && hevc.fu_start (rtp_payload dgram).

Definition is_fu_middle (h : Z) (dgram : list Z) : bool :=
  is_fu h dgram && negb (hevc.fu_start (rtp_payload dgram))
  && negb (hevc.fu_end (rtp_payload dgram)).

Definition is_fu_end (h : Z) (dgram : list Z) : bool :=
  is_fu h dgram && negb (hevc.fu_start (rtp_payload dgram))
  && hevc.fu_end (rtp_payload dgram).

(** Each datagram carries the 16-bit successor of the sequence number before
    it, starting after [sn]. *)
Fixpoint consecutive (sn : Z) (dgrams : list (list Z)) : bool :=
  match dgrams with
  | [] => true
  | d :: rest =>
      (datagram_seq d =? (sn + 1) mod 65536) && consecutive (datagram_seq d) rest
  end.

(** The sequence number of the last datagram, [sn] when there is none. *)
Fixpoint last_seq (sn : Z) (dgrams : list (list Z)) : Z :=
  match dgrams with
  | [] => sn
  | d :: rest => last_seq (datagram_seq d) rest
  end.

(** The bytes a fragment contributes: its RTP payload without the HEVC RTP
    header and the FU header. *)
Definition fu_data (dgram : list Z) : list Z := skipn 3 (rtp_payload dgram).

(** The datagrams arrive one per [recvfrom], and every frame can be
    allocated. *)
Definition received (dgrams : list (list Z)) : list recv_result :=
  map (fun d => RecvData d true) dgrams.

(** The receive buffer after the datagrams have been received in turn. *)
Definition recv_all (buf : list Z) (dgrams : list (list Z)) : list Z :=
  fold_left recv_into dgrams buf.

(** ** Concrete readers, frames and datagrams used in the examples *)

(** A reader after a successful [start], in queue mode ([MAX_PACKET] taken
    as 65536; any value would do). *)
Definition started_reader : reader := snd (start 65536 true true true reader_new).

(** The same reader with hook 7 installed with argument 42. *)
Definition hooked_reader : reader := install_recv_hook 42 (Some 7%nat) started_reader.

Definition sample_frame (n : Z) : rtp_frame :=
  {| timestamp := 0; ssrc := 0; seq := n; ptype := 0; marker := 0;
     header := []; header_len := 0;
     data := [n]; data_len := 1;
     payload := 0; payload_len := 1; total_len := 1;
     rtp_fmt := 0; frame_type := FRAME_TYPE_GENERIC |}.

(** Payload-type values for the examples (any three distinct values below
    128 would do). *)
Definition sample_externals : Externals := spec_externals 0 97 96 false.

(** A 12-byte RTP header: version 2, payload type [pt], sequence number
    [sn], timestamp and SSRC zero. *)
Definition rtp_header (pt sn : Z) : list Z :=
  [128; pt; Z.shiftr sn 8; Z.land sn 255; 0; 0; 0; 0; 0; 0; 0; 0].

(** An HEVC fragmentation unit: NAL type 49 in the HEVC RTP header, then the
    FU header, then the fragment's bytes. *)
Definition fu_packet (pt sn fuh : Z) (bytes : list Z) : list Z :=
  rtp_header pt sn ++ [98; 1; fuh] ++ bytes.

(** A 13-byte datagram of payload type 0 carrying the single byte [AB]. *)
Definition one_byte_packet : list Z := rtp_header 0 5 ++ [171].

(** The frame [frame_receiver] builds from [one_byte_packet] and the generic
    handler passes on. *)
Definition one_byte_frame : rtp_frame :=
  {| timestamp := 0; ssrc := 0; seq := 5; ptype := 0; marker := 0;
     header := repeat 0 25%nat; header_len := 12;
     data := one_byte_packet; data_len := 13;
     payload := 12; payload_len := 1; total_len := 13;
     rtp_fmt := 0; frame_type := FRAME_TYPE_GENERIC |}.

(** The same example constants on a platform where [_WIN32] is defined. *)
Definition windows_externals : Externals := spec_externals 0 97 96 true.

(** A datagram of exactly 12 bytes: a header and no payload. *)
Definition header_only_packet : list Z := rtp_header 0 6.

(** A 13-byte datagram whose payload type, 55, is none of the three
    formats of [sample_externals]. *)
Definition unknown_type_packet : list Z := rtp_header 55 8 ++ [1].

(** The fragments of the scenario of the spec, for payload type [h]: START
    with sequence number 100 carrying [AA], a middle fragment 101 carrying
    [BB], END 102 carrying [CC]; and an END numbered 103 instead.  The FU
    headers carry NAL type 1. *)
Definition frag_100 (h : Z) : list Z := fu_packet h 100 129 [170].
Definition frag_101 (h : Z) : list Z := fu_packet h 101 1 [187].
Definition frag_102 (h : Z) : list Z := fu_packet h 102 65 [204].
Definition frag_103 (h : Z) : list Z := fu_packet h 103 65 [204].

(** ** The rest of frame.hh and reader.cc *)

(** The values of the enumerators of [frame_type_t]. *)
Definition frame_type_value (t : frame_type_t) : Z :=
  match t with
  | FRAME_TYPE_GENERIC => 0
  | FRAME_TYPE_OPUS => 1
  | FRAME_TYPE_HEVC_FU => 2
  end.

(** The macro [INVALID_FRAME_TYPE(ft)]. *)
Definition INVALID_FRAME_TYPE (ft : Z) : bool :=
  (ft <? frame_type_value FRAME_TYPE_GENERIC)
  || (ft >? frame_type_value FRAME_TYPE_HEVC_FU).

(** What the destructor leaves: the reader, the pointers [dealloc_frame] was
    called with, in order, those for which "Failed to deallocate frame!"
    was logged, and whether [delete recv_buffer_] was applied to a pointer
    that holds no allocation.  The constructor does not initialise
    [recv_buffer_], only a successful [start] assigns it: on a reader that
    was never started the [delete] has undefined behaviour, and the other
    components say what the destructor does only when
    [delete_uninitialised] is [false]. *)
Record destroyed : Type := mk_destroyed {
  after_delete : reader;
  deallocated : list frame_ptr;
  dealloc_failed : list frame_ptr;
  delete_uninitialised : bool
}.

(** The [for (auto &i : framesOut_)] loop of the destructor.
    [dealloc_frame] is declared in frame.hh and defined elsewhere: what it
    answers for a frame is a parameter. *)
Fixpoint dealloc_all (dealloc_frame : frame_ptr -> rtp_error_t)
  (frames : list frame_ptr) : list frame_ptr * list frame_ptr :=
  match frames with
  | [] => ([], [])
  | i :: rest =>
      let e := dealloc_frame i in
      let '(called, failed) := dealloc_all dealloc_frame rest in
      match e with
      | RTP_OK => (i :: called, failed)
      | _ => (i :: called, i :: failed)
      end
  end.

(** [reader::~reader]: the flag is cleared, the receive buffer is deleted,
    and every pointer still in the queue goes to [dealloc_frame].  An empty
    [recv_buffer_] is a pointer that holds no allocation. *)
Definition reader_delete (dealloc_frame : frame_ptr -> rtp_error_t) (r : reader)
  : destroyed :=
  let uninitialised :=
    match recv_buffer_ r with [] => true | _ :: _ => false end in
  let r1 := set_recv_buffer [] (set_active false r) in
  match framesOut_ r1 with
  | [] => mk_destroyed r1 [] [] uninitialised
  | _ :: _ =>
      let '(called, failed) := dealloc_all dealloc_frame (framesOut_ r1) in
      mk_destroyed r1 called failed uninitialised
  end.

(** The calls of the user's hook recorded in a trace: function, argument,
    frame. *)
Fixpoint hook_calls (tr : list event) : list (hook_t * Z * frame_ptr) :=
  match tr with
  | [] => []
  | EvHook h a f :: tr' => (h, a, f) :: hook_calls tr'
  | _ :: tr' => hook_calls tr'
  end.

(** Successive calls of [install_recv_hook], each with its argument and its
    function pointer. *)
Definition install_all (calls : list (Z * option hook_t)) (r : reader) : reader :=
  fold_left (fun r c => install_recv_hook (fst c) (snd c) r) calls r.

(** The argument and function of the last call of the list that passed a
    function, [cur] when there is none. *)
Fixpoint last_install (calls : list (Z * option hook_t)) (cur : Z * option hook_t)
  : Z * option hook_t :=
  match calls with
  | [] => cur
  | (a, Some h) :: rest => last_install rest (a, Some h)
  | (_, None) :: rest => last_install rest cur
  end.

Definition passes_function (c : Z * option hook_t) : bool :=
  match snd c with
  | Some _ => true
  | None => false
  end.

Definition is_recv_fail (ev : recv_result) : bool :=
  match ev with
  | RecvFail _ => true
  | RecvData _ _ => false
  end.

(** The number of datagrams among the results of [recvfrom]. *)
Definition datagrams (evs : list recv_result) : nat :=
  length (filter (fun ev => negb (is_recv_fail ev)) evs).

Definition is_null (p : frame_ptr) : bool :=
  match p with
  | Some _ => false
  | None => true
  end.

(** The non-null frames the other threads enqueue. *)
Fixpoint env_enqueued (acts : list env_action) : list frame_ptr :=
  match acts with
  | [] => []
  | EnvEnqueue (Some f) :: acts' => Some f :: env_enqueued acts'
  | _ :: acts' => env_enqueued acts'
  end.

(** Neither frame nor hook call between [r] and [r'], and the same delivery
    set-up. *)
Definition same_calls (r r' : reader) : Prop :=
  nothing_delivered r r' /\ hook_calls (trace_ r') = hook_calls (trace_ r).

(** The first twelve bytes of the buffer are bytes. *)
Definition header_bytes (inbuf : list Z) : Prop :=
  forall i, (i < 12)%nat -> 0 <= nth i inbuf 0 < 256.

(** A format handler that reports success and returns no frame, for the
    Generic payload type 0. *)
Definition null_externals : Externals :=
  {| RTP_FORMAT_GENERIC := 0;
     RTP_FORMAT_OPUS := 97;
     RTP_FORMAT_HEVC := 96;
     win32 := false;
     process_opus_frame := opus.process_opus_frame;
     process_hevc_frame := hevc.process_hevc_frame;
     process_generic_frame := fun _ fu _ => (None, fu, RTP_OK) |}.

(** [dealloc_frame] succeeding on every frame but those numbered 2. *)
Definition sample_dealloc (p : frame_ptr) : rtp_error_t :=
  match p with
  | Some f => if seq f =? 2 then RTP_INVALID_VALUE else RTP_OK
  | None => RTP_INVALID_VALUE
  end.

(** Between [r] and [r'] exactly the frames [new] were handed over, in that
    order: to the queue when no hook is installed, else to the hook; the
    delivery set-up, the flag and the mutex are as before. *)
Definition delivers (r r' : reader) (new : list frame_ptr) : Prop :=
  active r' = active r /\
  recv_hook_ r' = recv_hook_ r /\
  recv_hook_arg_ r' = recv_hook_arg_ r /\
  frames_mtx_ r' = frames_mtx_ r /\
  delivered (trace_ r') = delivered (trace_ r) ++ new /\
  (recv_hook_ r = None ->
   framesOut_ r' = framesOut_ r ++ new /\
   hook_calls (trace_ r') = hook_calls (trace_ r)) /\
  (forall h, recv_hook_ r = Some h ->
   framesOut_ r' = framesOut_ r /\
   hook_calls (trace_ r')
     = hook_calls (trace_ r) ++ map (fun f => (h, recv_hook_arg_ r, f)) new).

(** * Properties *)

(** ** Record plumbing *)

Lemma delivered_app (t1 t2 : list event) :
  delivered (t1 ++ t2) = delivered t1 ++ delivered t2.
Proof.
  induction t1 as [|e t1 IH]; simpl; [reflexivity|].
  destruct e as [m| |c|h a f|w b|ms|]; simpl; try assumption.
  - now rewrite IH.
  - destruct w; simpl; [now rewrite IH | assumption].
Qed.

Lemma unlocked_writes_app (t1 t2 : list event) :
  unlocked_writes (t1 ++ t2) = unlocked_writes t1 ++ unlocked_writes t2.
Proof.
  induction t1 as [|e t1 IH]; simpl; [reflexivity|].
  destruct e as [m| |c|h a f|w b|ms|]; simpl; try assumption.
  destruct b; simpl; [assumption | now rewrite IH].
Qed.

(** ** The hook and the frame queue *)

(** C9.  [install_recv_hook] with a null function pointer installs nothing:
    it only logs an error, so the hook, its argument, the queue and the
    active flag are as before and a frame is delivered as before.  With a
    non-null pointer the hook and its argument are both recorded. *)
Theorem install_recv_hook_null_or_recorded (arg : Z) (r : reader) :
  (install_recv_hook arg None r = emit (EvLog ERROR_hook_is_nullptr) r /\
   recv_hook_ (install_recv_hook arg None r) = recv_hook_ r /\
   recv_hook_arg_ (install_recv_hook arg None r) = recv_hook_arg_ r /\
   recv_hook_installed (install_recv_hook arg None r) = recv_hook_installed r /\
   framesOut_ (install_recv_hook arg None r) = framesOut_ r /\
   active (install_recv_hook arg None r) = active r /\
   forall f, delivered (trace_ (recv_hook f (install_recv_hook arg None r)))
             = delivered (trace_ (recv_hook f r))) /\
  (forall h : hook_t,
     recv_hook_ (install_recv_hook arg (Some h) r) = Some h /\
     recv_hook_arg_ (install_recv_hook arg (Some h) r) = arg /\
     recv_hook_installed (install_recv_hook arg (Some h) r) = true /\
     forall f, trace_ (recv_hook f (install_recv_hook arg (Some h) r))
               = trace_ r ++ [EvHook h arg f]).
Proof.
  split.
  - repeat split; try reflexivity.
    intro f. unfold recv_hook, install_recv_hook. simpl.
    destruct (recv_hook_ r); simpl; rewrite !delivered_app; simpl;
      now rewrite ?app_nil_r.
  - intro h. repeat split.
Qed.

Lemma enqueue_all_app (p1 p2 : list frame_ptr) (r : reader) :
  enqueue_all (p1 ++ p2) r = enqueue_all p2 (enqueue_all p1 r).
Proof. unfold enqueue_all. apply fold_left_app. Qed.

Lemma add_outgoing_frame_no_null (f : frame_ptr) (r : reader) :
  ~ In None (framesOut_ r) -> ~ In None (framesOut_ (add_outgoing_frame f r)).
Proof.
  intros H. destruct f as [f|]; simpl; [|exact H].
  intro Hin. apply in_app_or in Hin. destruct Hin as [Hin|[Hin|[]]].
  - now apply H.
  - discriminate.
Qed.

Lemma add_outgoing_frame_active (f : frame_ptr) (r : reader) :
  active (add_outgoing_frame f r) = active r.
Proof. now destruct f. Qed.

Lemma add_outgoing_frame_mtx (f : frame_ptr) (r : reader) :
  frames_mtx_ (add_outgoing_frame f r) = frames_mtx_ r.
Proof. now destruct f. Qed.

Lemma env_step_no_null (a : env_action) (r : reader) :
  ~ In None (framesOut_ r) -> ~ In None (framesOut_ (env_step a r)).
Proof.
  destruct a as [f|]; simpl; [apply add_outgoing_frame_no_null | auto].
Qed.

Lemma env_run_no_null (acts : list env_action) (r : reader) :
  ~ In None (framesOut_ r) -> ~ In None (framesOut_ (env_run acts r)).
Proof.
  revert r. induction acts as [|a acts IH]; intros r H; simpl; [exact H|].
  apply IH. now apply env_step_no_null.
Qed.

Lemma enqueue_all_no_null (ptrs : list frame_ptr) (r : reader) :
  ~ In None (framesOut_ r) -> ~ In None (framesOut_ (enqueue_all ptrs r)).
Proof.
  revert r. induction ptrs as [|p ptrs IH]; intros r H; simpl; [exact H|].
  apply IH. now apply add_outgoing_frame_no_null.
Qed.

Lemma pull_wait_no_null (sl : list (list env_action)) (r r1 : reader) :
  ~ In None (framesOut_ r) ->
  pull_wait sl r = WaitOver r1 -> ~ In None (framesOut_ r1).
Proof.
  revert r. induction sl as [|acts sl IH]; intros r H; simpl.
  - destruct (_ && _); [discriminate|]. intros [= <-]. exact H.
  - destruct (_ && _).
    + apply IH. now apply env_run_no_null.
    + intros [= <-]. exact H.
Qed.

(** A null result of [pull_frame] never comes out of a queue without null
    entries: it is the answer given when the reader is inactive. *)
Lemma pull_frame_null_is_inactive (sch : schedule) (r r' : reader) :
  ~ In None (framesOut_ r) ->
  pull_frame sch r = PullReturned None r' -> active r' = false.
Proof.
  intros H. unfold pull_frame.
  destruct (pull_wait (sleeps sch) r) as [r1|r1] eqn:Hw; [discriminate|].
  apply pull_wait_no_null in Hw; [|exact H].
  destruct (negb (active (env_run (before_check sch) r1))) eqn:Ha.
  - intros [= <-]. now apply negb_true_iff in Ha.
  - destruct (frames_mtx_ _); [discriminate|].
    simpl.
    destruct (framesOut_ (env_run (before_lock sch) (env_run (before_check sch) r1)))
      as [|x rest] eqn:Hq; [discriminate|].
    intros [= -> <-]. exfalso.
    apply (env_run_no_null (before_lock sch) (env_run (before_check sch) r1)).
    + now apply env_run_no_null.
    + rewrite Hq. now left.
Qed.

(** C10.  [add_outgoing_frame] with a null frame pointer changes nothing, so
    the queue keeps its contents and its length.  Hence a queue without null
    entries stays so whatever pointers are passed, and a later [pull_frame]
    answers null only because the reader is inactive, never because it took
    a null entry from the queue. *)
Theorem add_outgoing_frame_null_is_noop :
  (forall r : reader, add_outgoing_frame None r = r) /\
  (forall (r : reader) (ptrs : list frame_ptr) (sch : schedule) (r' : reader),
     ~ In None (framesOut_ r) ->
     ~ In None (framesOut_ (enqueue_all ptrs r)) /\
     (pull_frame sch (enqueue_all ptrs r) = PullReturned None r' ->
      active r' = false)).
Proof.
  split; [reflexivity|].
  intros r ptrs sch r' H. split.
  - now apply enqueue_all_no_null.
  - apply pull_frame_null_is_inactive. now apply enqueue_all_no_null.
Qed.

Lemma add_outgoing_frame_null_is_noop_witness :
  ~ In None (framesOut_ started_reader) /\
  ~ In None (framesOut_ (enqueue_all [None; Some (sample_frame 1); None] started_reader)) /\
  (pull_frame quiet (enqueue_all [None; Some (sample_frame 1); None] started_reader)
     = PullReturned None started_reader ->
   active started_reader = false).
Proof.
  split; [simpl; tauto|].
  apply (proj2 add_outgoing_frame_null_is_noop started_reader
           [None; Some (sample_frame 1); None] quiet started_reader).
  simpl; tauto.
Defined.

(** ** Order of the queue *)

Lemma enqueue_all_framesOut (fs : list rtp_frame) (r : reader) :
  framesOut_ (enqueue_all (map Some fs) r) = framesOut_ r ++ map Some fs.
Proof.
  revert r. induction fs as [|f fs IH]; intros r; simpl.
  - now rewrite app_nil_r.
  - unfold enqueue_all in IH. rewrite IH. simpl. now rewrite <- app_assoc.
Qed.

Lemma enqueue_all_active (ptrs : list frame_ptr) (r : reader) :
  active (enqueue_all ptrs r) = active r.
Proof.
  revert r. induction ptrs as [|p ptrs IH]; intros r; simpl; [reflexivity|].
  unfold enqueue_all in IH. rewrite IH. apply add_outgoing_frame_active.
Qed.

Lemma enqueue_all_mtx (ptrs : list frame_ptr) (r : reader) :
  frames_mtx_ (enqueue_all ptrs r) = frames_mtx_ r.
Proof.
  revert r. induction ptrs as [|p ptrs IH]; intros r; simpl; [reflexivity|].
  unfold enqueue_all in IH. rewrite IH. apply add_outgoing_frame_mtx.
Qed.

(** With nobody else running, an active reader whose queue is not empty
    gives its oldest entry at once, under the mutex. *)
Lemma pull_frame_quiet_front (r : reader) (x : frame_ptr) (q : list frame_ptr) :
  active r = true -> frames_mtx_ r = false -> framesOut_ r = x :: q ->
  pull_frame quiet r =
    PullReturned x
      (set_frames_mtx false
         (emit (EvQueueWrite QEraseBegin true)
            (set_framesOut q (set_frames_mtx true r)))).
Proof.
  intros Ha Hm Hq. unfold pull_frame, quiet. simpl.
  rewrite Hq. simpl. rewrite Ha, Hm. simpl. rewrite Hq. reflexivity.
Qed.

Lemma pull_frame_quiet_inv (r r1 : reader) (f : frame_ptr) :
  active r = true -> pull_frame quiet r = PullReturned f r1 ->
  framesOut_ r = f :: framesOut_ r1 /\ active r1 = true.
Proof.
  intros Ha. unfold pull_frame, quiet. simpl.
  destruct (framesOut_ r) as [|x q] eqn:Hq; simpl.
  - rewrite Ha. discriminate.
  - rewrite Ha. simpl. destruct (frames_mtx_ r); [discriminate|].
    rewrite Hq. intros [= <- <-]. simpl. now split.
Qed.

Lemma pull_many_drains (q : list frame_ptr) (r : reader) :
  active r = true -> frames_mtx_ r = false -> framesOut_ r = q ->
  fst (pull_many (length q) r) = q /\
  framesOut_ (snd (pull_many (length q) r)) = [].
Proof.
  revert r. induction q as [|x q IH]; intros r Ha Hm Hq; simpl.
  - now split.
  - rewrite (pull_frame_quiet_front r x q Ha Hm Hq).
    match goal with |- context [pull_many _ ?r1] =>
      destruct (IH r1) as [H1 H2]; try reflexivity; try exact Ha;
      destruct (pull_many (length q) r1) as [fs r2] end.
    simpl in *. split; [now rewrite H1 | exact H2].
Qed.

Lemma run_ops_conserves (ops : list queue_op) (r r' : reader) (out : list frame_ptr) :
  active r = true -> run_ops ops r = Some (out, r') ->
  out ++ framesOut_ r' = framesOut_ r ++ enqueued ops.
Proof.
  revert r out. induction ops as [|op ops IH]; intros r out Ha; simpl.
  - intros [= <- <-]. simpl. now rewrite app_nil_r.
  - destruct op as [f|].
    + intros H. apply IH in H; [|now rewrite add_outgoing_frame_active].
      rewrite H. destruct f as [f|]; simpl; [|reflexivity].
      now rewrite <- app_assoc.
    + destruct (pull_frame quiet r) as [r1|r1|r1|f r1] eqn:Hp; try discriminate.
      apply pull_frame_quiet_inv in Hp; [|exact Ha]. destruct Hp as [Hq Ha1].
      destruct (run_ops ops r1) as [[fs r2]|] eqn:Hr; [|discriminate].
      intros [= <- <-]. apply IH in Hr; [|exact Ha1].
      rewrite Hq. simpl. now rewrite Hr.
Qed.

(** ** Waiting in pull_frame *)

Lemma env_run_app (a1 a2 : list env_action) (r : reader) :
  env_run (a1 ++ a2) r = env_run a2 (env_run a1 r).
Proof. unfold env_run. apply fold_left_app. Qed.

Lemma env_step_inactive (a : env_action) (r : reader) :
  active r = false -> active (env_step a r) = false.
Proof.
  destruct a as [f|]; simpl; [|reflexivity].
  now rewrite add_outgoing_frame_active.
Qed.

Lemma env_run_inactive (acts : list env_action) (r : reader) :
  active r = false -> active (env_run acts r) = false.
Proof.
  revert r. induction acts as [|a acts IH]; intros r H; simpl; [exact H|].
  apply IH. now apply env_step_inactive.
Qed.

Lemma env_run_keeps_empty (acts : list env_action) (r : reader) :
  enqueues_nothing acts = true -> framesOut_ r = [] ->
  framesOut_ (env_run acts r) = [].
Proof.
  revert r. induction acts as [|a acts IH]; intros r Hn Hq; simpl; [exact Hq|].
  simpl in Hn. apply andb_true_iff in Hn. destruct Hn as [Ha Hn].
  apply IH; [exact Hn|].
  destruct a as [[f|]|]; simpl; [discriminate | exact Hq | exact Hq].
Qed.

Lemma pull_wait_inactive (sl : list (list env_action)) (r : reader) :
  active r = false -> pull_wait sl r = WaitOver r.
Proof.
  intros H. destruct sl; simpl; rewrite H, andb_false_r; reflexivity.
Qed.

Lemma slept_fields (n : nat) (r : reader) :
  active (slept n r) = active r /\
  framesOut_ (slept n r) = framesOut_ r /\
  frames_mtx_ (slept n r) = frames_mtx_ r /\
  trace_ (slept n r) = trace_ r ++ repeat (EvSleep 20) n.
Proof.
  revert r. induction n as [|n IH]; intros r; simpl.
  - now rewrite app_nil_r.
  - destruct (IH (emit (EvSleep 20) r)) as (H1 & H2 & H3 & H4).
    rewrite H1, H2, H3, H4. simpl. now rewrite <- app_assoc.
Qed.

Lemma pull_wait_idle (n : nat) (sl : list (list env_action)) (r : reader) :
  active r = true -> framesOut_ r = [] ->
  pull_wait (repeat [] n ++ sl) r = pull_wait sl (slept n r).
Proof.
  revert r. induction n as [|n IH]; intros r Ha Hq; simpl; [reflexivity|].
  rewrite Hq, Ha. simpl. apply IH; assumption.
Qed.

Lemma pull_wait_empty_stays_empty (sl : list (list env_action)) (r r1 : reader) :
  forallb enqueues_nothing sl = true -> framesOut_ r = [] ->
  pull_wait sl r = WaitOver r1 -> framesOut_ r1 = [] /\ active r1 = false.
Proof.
  revert r. induction sl as [|acts sl IH]; intros r Hn Hq; simpl; rewrite Hq; simpl.
  - destruct (active r) eqn:Ha; [discriminate|]. intros [= <-]. now split.
  - simpl in Hn. apply andb_true_iff in Hn. destruct Hn as [Hacts Hn].
    destruct (active r) eqn:Ha.
    + apply IH; [exact Hn|]. now apply env_run_keeps_empty.
    + intros [= <-]. now split.
Qed.

Lemma env_run_keeps_frames (acts : list env_action) (r : reader) :
  framesOut_ r <> [] -> framesOut_ (env_run acts r) <> [].
Proof.
  revert r. induction acts as [|a acts IH]; intros r H; simpl; [exact H|].
  apply IH. destruct a as [[f|]|]; simpl; try exact H.
  intro E. apply app_eq_nil in E. destruct E as [_ E]. discriminate.
Qed.

Lemma pull_wait_over (sl : list (list env_action)) (r r1 : reader) :
  pull_wait sl r = WaitOver r1 -> framesOut_ r1 <> [] \/ active r1 = false.
Proof.
  revert r. induction sl as [|acts sl IH]; intros r; simpl.
  - destruct (framesOut_ r) eqn:Hq; simpl.
    + destruct (active r) eqn:Ha; [discriminate|]. intros [= <-]. now right.
    + intros [= <-]. left. now rewrite Hq.
  - destruct (framesOut_ r) eqn:Hq; simpl.
    + destruct (active r) eqn:Ha; [apply IH|]. intros [= <-]. now right.
    + intros [= <-]. left. now rewrite Hq.
Qed.

(** With a single consumer [front()] is never applied to an empty vector:
    when the waiting loop was left with the reader still active, the queue
    was not empty, and the other threads only add to it. *)
Lemma pull_frame_never_undefined (sch : schedule) (r r' : reader) :
  pull_frame sch r <> PullUndefined r'.
Proof.
  unfold pull_frame.
  destruct (pull_wait (sleeps sch) r) as [r1|r1] eqn:Hw; [discriminate|].
  apply pull_wait_over in Hw.
  destruct (negb (active (env_run (before_check sch) r1))) eqn:Ha; [discriminate|].
  destruct (frames_mtx_ _); [discriminate|]. simpl.
  destruct (framesOut_ (env_run (before_lock sch) (env_run (before_check sch) r1)))
    eqn:Hq; [|discriminate].
  exfalso. apply negb_false_iff in Ha. destruct Hw as [Hne|Hin].
  - apply (env_run_keeps_frames (before_lock sch) (env_run (before_check sch) r1));
      [now apply env_run_keeps_frames | exact Hq].
  - rewrite (env_run_inactive _ _ Hin) in Ha. discriminate.
Qed.

(** C6.  [pull_frame] answers null when the reader is inactive: at once,
    without sleeping, when it is inactive at the call, and after the sleep
    during which it was deactivated when that happens while the caller
    waits.  While the reader is active and the queue is empty the call keeps
    sleeping 20 ms at a time, however long nothing happens; it returns the
    frame as soon as one has been queued; and a call during which nothing is
    ever queued on an empty queue never returns a frame. *)
Theorem pull_frame_waits_or_gives_up :
  (forall (sch : schedule) (r : reader),
     active r = false ->
     pull_frame sch r = PullReturned None (env_run (before_check sch) r)) /\
  (forall (n : nat) (rest : list (list env_action)) (bc bl : list env_action)
          (r : reader),
     active r = true -> framesOut_ r = [] ->
     pull_frame (mk_schedule (repeat [] n ++ [EnvDeactivate] :: rest) bc bl) r
       = PullReturned None
           (env_run bc (set_active false (emit (EvSleep 20) (slept n r))))) /\
  (forall (n : nat) (bc bl : list env_action) (r : reader),
     active r = true -> framesOut_ r = [] ->
     pull_frame (mk_schedule (repeat [] n) bc bl) r = PullWaiting (slept n r)) /\
  (forall (n : nat) (rest : list (list env_action)) (f : rtp_frame) (r : reader),
     active r = true -> framesOut_ r = [] -> frames_mtx_ r = false ->
     exists r',
       pull_frame (mk_schedule (repeat [] n ++ [EnvEnqueue (Some f)] :: rest) [] []) r
         = PullReturned (Some f) r' /\
       framesOut_ r' = [] /\
       trace_ r' = trace_ r ++ repeat (EvSleep 20) (S n)
                     ++ [EvQueueWrite (QPushBack (Some f)) false;
                         EvQueueWrite QEraseBegin true]) /\
  (forall (sch : schedule) (r r' : reader) (f : rtp_frame),
     framesOut_ r = [] -> schedule_enqueues_nothing sch = true ->
     pull_frame sch r <> PullReturned (Some f) r').
Proof.
  repeat apply conj.
  - intros sch r Ha. unfold pull_frame.
    rewrite (pull_wait_inactive _ _ Ha).
    now rewrite (env_run_inactive _ _ Ha).
  - intros n rest bc bl r Ha Hq. unfold pull_frame. simpl.
    rewrite (pull_wait_idle n _ r Ha Hq).
    destruct (slept_fields n r) as (H1 & H2 & _).
    simpl. rewrite H2, Hq, H1, Ha. simpl.
    rewrite pull_wait_inactive by reflexivity.
    now rewrite env_run_inactive.
  - intros n bc bl r Ha Hq. unfold pull_frame. simpl.
    rewrite <- (app_nil_r (repeat [] n)).
    rewrite (pull_wait_idle n [] r Ha Hq).
    destruct (slept_fields n r) as (H1 & H2 & _).
    simpl. now rewrite H2, Hq, H1, Ha.
  - intros n rest f r Ha Hq Hm. unfold pull_frame. simpl.
    rewrite (pull_wait_idle n _ r Ha Hq).
    destruct (slept_fields n r) as (H1 & H2 & H3 & H4).
    simpl. rewrite H2, Hq, H1, Ha. simpl.
    unfold active in *.
    destruct rest as [|acts rest]; simpl; rewrite H1, Ha, H3, Hm; simpl;
      (eexists; split; [reflexivity|]; split; [reflexivity|]);
      simpl; rewrite H4, <- !app_assoc; f_equal; simpl;
      rewrite (app_comm_cons (repeat (EvSleep 20) n)), repeat_cons, <- app_assoc;
      reflexivity.
  - intros sch r r' f Hq Hn. unfold schedule_enqueues_nothing in Hn.
    apply andb_true_iff in Hn. destruct Hn as [Hn Hbl].
    apply andb_true_iff in Hn. destruct Hn as [Hsl Hbc].
    unfold pull_frame.
    destruct (pull_wait (sleeps sch) r) as [r1|r1] eqn:Hw; [discriminate|].
    destruct (pull_wait_empty_stays_empty _ _ _ Hsl Hq Hw) as [Hq1 Ha1].
    now rewrite (env_run_inactive _ _ Ha1).
Qed.

Lemma pull_frame_waits_or_gives_up_witness :
  pull_frame (mk_schedule [[EnvEnqueue (Some (sample_frame 1))]] [] []) reader_new
    = PullReturned None reader_new /\
  pull_frame (mk_schedule (repeat [] 2 ++ [[EnvDeactivate]]) [] []) started_reader
    = PullReturned None
        (set_active false (emit (EvSleep 20) (slept 2 started_reader))) /\
  pull_frame (mk_schedule (repeat [] 3) [] []) started_reader
    = PullWaiting (slept 3 started_reader) /\
  (exists r',
     pull_frame (mk_schedule (repeat [] 1 ++ [[EnvEnqueue (Some (sample_frame 1))]]) [] [])
                started_reader
       = PullReturned (Some (sample_frame 1)) r' /\
     framesOut_ r' = [] /\
     trace_ r' = trace_ started_reader ++ repeat (EvSleep 20) 2
                   ++ [EvQueueWrite (QPushBack (Some (sample_frame 1))) false;
                       EvQueueWrite QEraseBegin true]) /\
  pull_frame (mk_schedule [[]; [EnvEnqueue None]] [] []) started_reader
    <> PullReturned (Some (sample_frame 1)) started_reader.
Proof.
  destruct pull_frame_waits_or_gives_up as (A1 & A2 & B1 & B2 & B3).
  repeat apply conj.
  - apply (A1 (mk_schedule [[EnvEnqueue (Some (sample_frame 1))]] [] []) reader_new).
    reflexivity.
  - apply (A2 2%nat [] [] [] started_reader); reflexivity.
  - apply (B1 3%nat [] [] started_reader); reflexivity.
  - apply (B2 1%nat [] (sample_frame 1) started_reader); reflexivity.
  - apply (B3 (mk_schedule [[]; [EnvEnqueue None]] [] []) started_reader); reflexivity.
Defined.

(** ** The receive loop *)

Section ReceiveLoop.
Context {ext : Externals}.

Lemma report_recv_error_fields (code : Z) (r : reader) :
  active (report_recv_error code r) = active r /\
  framesOut_ (report_recv_error code r) = framesOut_ r /\
  recv_hook_ (report_recv_error code r) = recv_hook_ r /\
  recv_hook_arg_ (report_recv_error code r) = recv_hook_arg_ r /\
  delivered (trace_ (report_recv_error code r)) = delivered (trace_ r).
Proof.
  unfold report_recv_error.
  destruct win32; [destruct (negb (code =? WSAEWOULDBLOCK))|]; simpl;
    rewrite ?delivered_app, ?app_nil_r; repeat split.
Qed.

Lemma receiver_loop_step (ev : recv_result) (evs : list recv_result) (s s' : loop_state) :
  active (rd s) = true -> receive_one ev s = IterContinue s' ->
  receiver_loop (ev :: evs) s = receiver_loop evs s'.
Proof. intros Ha H. simpl. now rewrite Ha, H. Qed.

Lemma receiver_loop_blocked_active (evs : list recv_result) (s s1 : loop_state) :
  receiver_loop evs s = LoopBlocked s1 -> active (rd s1) = true.
Proof.
  revert s. induction evs as [|ev evs IH]; intros s; simpl.
  - destruct (active (rd s)) eqn:Ha; [|discriminate]. now intros [= <-].
  - destruct (active (rd s)); [|discriminate].
    destruct (receive_one ev s) as [s'|s']; [discriminate|]. apply IH.
Qed.

Lemma receiver_loop_app (pre post : list recv_result) (s s1 : loop_state) :
  receiver_loop pre s = LoopBlocked s1 ->
  receiver_loop (pre ++ post) s = receiver_loop post s1.
Proof.
  revert s. induction pre as [|ev pre IH]; intros s; simpl.
  - destruct (active (rd s)) eqn:Ha; [|discriminate]. intros [= <-].
    destruct post; simpl; now rewrite ?Ha.
  - destruct (active (rd s)); [|discriminate].
    destruct (receive_one ev s) as [s'|s']; [discriminate|]. apply IH.
Qed.

Lemma nothing_delivered_refl (r : reader) : nothing_delivered r r.
Proof. repeat split. Qed.

Lemma nothing_delivered_trans (r1 r2 r3 : reader) :
  nothing_delivered r1 r2 -> nothing_delivered r2 r3 -> nothing_delivered r1 r3.
Proof.
  intros (A1 & A2 & A3 & A4 & A5 & A6) (B1 & B2 & B3 & B4 & B5 & B6).
  repeat split; congruence.
Qed.

Lemma nothing_delivered_log (m : log_msg) (r : reader) :
  nothing_delivered r (emit (EvLog m) r).
Proof.
  repeat split. simpl. rewrite delivered_app. simpl. apply app_nil_r.
Qed.

Lemma nothing_delivered_recv_buffer (buf : list Z) (r : reader) :
  nothing_delivered r (set_recv_buffer buf r).
Proof. repeat split. Qed.

Lemma nth_recv_into (buf dgram : list Z) (i : nat) :
  (i < length dgram)%nat -> nth i (recv_into buf dgram) 0 = nth i dgram 0.
Proof. intros H. unfold recv_into. now apply app_nth1. Qed.

Lemma firstn_recv_into (buf dgram : list Z) :
  firstn (Z.to_nat (Z.of_nat (length dgram))) (recv_into buf dgram) = dgram.
Proof.
  unfold recv_into. rewrite Nat2Z.id, firstn_app, Nat.sub_diag, firstn_all.
  simpl. apply app_nil_r.
Qed.

Lemma frame_from_recv_buffer (buf dgram : list Z) (f0 : rtp_frame) :
  12 < Z.of_nat (length dgram) ->
  alloc_frame true (Z.of_nat (length dgram)) FRAME_TYPE_GENERIC = Some f0 ->
  set_rtp_data (recv_into buf dgram) (Z.of_nat (length dgram))
    (set_rtp_fields (recv_into buf dgram) f0)
  = frame_of_datagram dgram.
Proof.
  intros Hlen Ha. unfold alloc_frame in Ha. injection Ha as <-.
  unfold set_rtp_data, set_rtp_fields, frame_of_datagram, datagram_seq,
    datagram_ptype, ntohl_at, ntohs_at.
  cbn [timestamp ssrc seq ptype marker header header_len data data_len
       payload payload_len total_len rtp_fmt frame_type].
  rewrite firstn_recv_into.
  rewrite !nth_recv_into by lia. reflexivity.
Qed.

(** The iteration for a datagram with a payload when [alloc_frame]
    succeeds: the frame goes through the switch and the result is handed
    over. *)
Lemma receive_one_data (dgram : list Z) (s : loop_state) :
  12 < Z.of_nat (length dgram) ->
  receive_one (RecvData dgram true) s =
    let r1 := emit (EvLog (DEBUG_got_bytes (Z.of_nat (length dgram))))
                (set_recv_buffer (recv_into (recv_buffer_ (rd s)) dgram) (rd s)) in
    let '(frame3, s') := dispatch (frame_of_datagram dgram) (mk_loop r1 (fu s) (err s)) in
    IterContinue (mk_loop (hand_over frame3 (err s') (rd s')) (fu s') (err s')).
Proof.
  intros Hlen. unfold receive_one, alloc_frame, RTP_HEADER_SIZE.
  destruct (Z.of_nat (length dgram) - 12 <=? 0) eqn:Hle.
  - apply Z.leb_le in Hle. lia.
  - rewrite frame_from_recv_buffer by (assumption || reflexivity). reflexivity.
Qed.

(** The iteration for a datagram without payload, or when [alloc_frame]
    fails: a log line, and on to the next datagram. *)
Lemma receive_one_dropped (dgram : list Z) (alloc_ok : bool) (s : loop_state) :
  Z.of_nat (length dgram) <= 12 \/ alloc_ok = false ->
  exists s',
    receive_one (RecvData dgram alloc_ok) s = IterContinue s' /\
    nothing_delivered (rd s) (rd s') /\ fu s' = fu s /\ err s' = err s.
Proof.
  intros H. unfold receive_one, alloc_frame, RTP_HEADER_SIZE.
  destruct alloc_ok.
  - destruct H as [H|H]; [|discriminate].
    destruct (Z.of_nat (length dgram) - 12 <=? 0) eqn:Hle.
    + eexists. split; [reflexivity|]. simpl. split; [|now split].
      eapply nothing_delivered_trans; [apply nothing_delivered_recv_buffer|].
      eapply nothing_delivered_trans; apply nothing_delivered_log.
    + apply Z.leb_gt in Hle. lia.
  - eexists. split; [reflexivity|]. simpl. split; [|now split].
    eapply nothing_delivered_trans; [apply nothing_delivered_recv_buffer|].
    eapply nothing_delivered_trans; apply nothing_delivered_log.
Qed.

Lemma hand_over_not_ok (frame : frame_ptr) (e : rtp_error_t) (r : reader) :
  e <> RTP_OK -> nothing_delivered r (hand_over frame e r).
Proof.
  intros He. destruct e; try apply nothing_delivered_log. congruence.
Qed.

Lemma hand_over_ok (frame : frame_ptr) (r : reader) :
  active (hand_over frame RTP_OK r) = active r /\
  recv_hook_ (hand_over frame RTP_OK r) = recv_hook_ r /\
  recv_hook_arg_ (hand_over frame RTP_OK r) = recv_hook_arg_ r /\
  frames_mtx_ (hand_over frame RTP_OK r) = frames_mtx_ r /\
  (recv_hook_ r = None ->
   framesOut_ (hand_over frame RTP_OK r) = framesOut_ (add_outgoing_frame frame r) /\
   delivered (trace_ (hand_over frame RTP_OK r))
     = delivered (trace_ r) ++ match frame with Some _ => [frame] | None => [] end) /\
  (forall h, recv_hook_ r = Some h ->
   framesOut_ (hand_over frame RTP_OK r) = framesOut_ r /\
   trace_ (hand_over frame RTP_OK r)
     = trace_ r ++ [EvLog DEBUG_returning_frame; EvHook h (recv_hook_arg_ r) frame] /\
   delivered (trace_ (hand_over frame RTP_OK r)) = delivered (trace_ r) ++ [frame]).
Proof.
  unfold hand_over, recv_hook_installed, recv_hook. simpl.
  destruct (recv_hook_ r) as [h|] eqn:Hh; simpl.
  - repeat apply conj; try reflexivity; try exact Hh; [discriminate|].
    intros h' [= <-]. repeat apply conj; try reflexivity.
    + now rewrite <- app_assoc.
    + rewrite !delivered_app. simpl. now rewrite <- app_assoc.
  - repeat apply conj; try (now destruct frame; simpl; rewrite ?Hh).
    intros _. split; [now destruct frame|].
    destruct frame as [f|]; simpl; rewrite !delivered_app; simpl;
      now rewrite <- ?app_assoc, ?app_nil_r.
Qed.

Lemma hand_over_recv_buffer (frame : frame_ptr) (e : rtp_error_t) (r : reader) :
  recv_buffer_ (hand_over frame e r) = recv_buffer_ r.
Proof.
  destruct e; try reflexivity.
  unfold hand_over, recv_hook_installed, recv_hook. simpl.
  destruct (recv_hook_ r); [reflexivity | now destruct frame].
Qed.

Lemma recv_into_length (buf dgram : list Z) :
  (length dgram <= length buf)%nat -> length (recv_into buf dgram) = length buf.
Proof.
  intros H. unfold recv_into. rewrite length_app, length_skipn. lia.
Qed.

(** C3, as the code has it.  When [recvfrom] fails, whatever the error,
    would-block included, the loop returns on the spot: the datagrams that
    would follow are never read and nothing is delivered.  The loop leaves
    the active flag as it is, so [active()] still answers true afterwards.
    What is printed is the only difference between failures: on Windows
    nothing for would-block and the error code for any other failure,
    elsewhere the [perror] line for every failure. *)
Theorem recv_failure_ends_loop
  (pre rest : list recv_result) (code : Z) (s s1 : loop_state) :
  receiver_loop pre s = LoopBlocked s1 ->
  receiver_loop (pre ++ RecvFail code :: rest) s
    = LoopReturned (mk_loop (report_recv_error code (rd s1)) (fu s1) (err s1)) /\
  active (report_recv_error code (rd s1)) = true /\
  framesOut_ (report_recv_error code (rd s1)) = framesOut_ (rd s1) /\
  delivered (trace_ (report_recv_error code (rd s1))) = delivered (trace_ (rd s1)) /\
  (win32 = true -> report_recv_error WSAEWOULDBLOCK (rd s1) = rd s1) /\
  (win32 = true -> code <> WSAEWOULDBLOCK ->
   report_recv_error code (rd s1) = emit (EvSocketError code) (rd s1)) /\
  (win32 = false -> report_recv_error code (rd s1) = emit EvPerror (rd s1)).
Proof.
  intros Hpre.
  pose proof (receiver_loop_blocked_active _ _ _ Hpre) as Ha.
  destruct (report_recv_error_fields code (rd s1)) as (H1 & H2 & _ & _ & H5).
  repeat apply conj.
  - rewrite (receiver_loop_app _ _ _ _ Hpre). simpl. now rewrite Ha.
  - now rewrite H1.
  - exact H2.
  - exact H5.
  - intros Hw. unfold report_recv_error. now rewrite Hw.
  - intros Hw Hc. unfold report_recv_error. rewrite Hw.
    apply Z.eqb_neq in Hc. now rewrite Hc.
  - intros Hw. unfold report_recv_error. now rewrite Hw.
Qed.

Lemma dispatch_unrecognized (frame : rtp_frame) (s : loop_state) :
  ptype frame <> RTP_FORMAT_OPUS ->
  ptype frame <> RTP_FORMAT_HEVC ->
  ptype frame <> RTP_FORMAT_GENERIC ->
  dispatch frame s =
    (Some frame,
     mk_loop (emit (EvLog (WARN_unrecognized_ptype (ptype frame))) (rd s))
             (fu s) RTP_INVALID_VALUE).
Proof.
  intros Ho Hh Hg. unfold dispatch.
  apply Z.eqb_neq in Ho, Hh, Hg. now rewrite Ho, Hh, Hg.
Qed.

(** C5.  A datagram whose payload type is none of Opus, HEVC and Generic
    produces no delivered frame, leaves the fragment vector alone, and the
    loop goes on with the next datagram.  When the datagram has a payload and
    its frame could be allocated, what happens is exactly: the warning about
    the unrecognized type, [err] set to [RTP_INVALID_VALUE], and the error
    line of the final test. *)
Theorem unrecognized_ptype_dropped
  (dgram : list Z) (alloc_ok : bool) (rest : list recv_result) (s : loop_state) :
  datagram_ptype dgram <> RTP_FORMAT_OPUS ->
  datagram_ptype dgram <> RTP_FORMAT_HEVC ->
  datagram_ptype dgram <> RTP_FORMAT_GENERIC ->
  active (rd s) = true ->
  exists s',
    receive_one (RecvData dgram alloc_ok) s = IterContinue s' /\
    receiver_loop (RecvData dgram alloc_ok :: rest) s = receiver_loop rest s' /\
    nothing_delivered (rd s) (rd s') /\
    fu s' = fu s /\
    (12 < Z.of_nat (length dgram) -> alloc_ok = true ->
     err s' = RTP_INVALID_VALUE /\
     trace_ (rd s') =
       trace_ (rd s) ++
       [EvLog (DEBUG_got_bytes (Z.of_nat (length dgram)));
        EvLog (WARN_unrecognized_ptype (datagram_ptype dgram));
        EvLog (ERROR_process_frame RTP_INVALID_VALUE)]).
Proof.
  intros Ho Hh Hg Ha.
  destruct (Z_le_gt_dec (Z.of_nat (length dgram)) 12) as [Hshort|Hlong];
    [|destruct alloc_ok].
  - destruct (receive_one_dropped dgram alloc_ok s (or_introl Hshort))
      as (s' & H1 & H2 & H3 & _).
    exists s'. split; [exact H1|]. split; [now apply receiver_loop_step|].
    split; [exact H2|]. split; [exact H3|]. intros; exfalso; lia.
  - assert (Hone : receive_one (RecvData dgram true) s
                   = IterContinue
                       (mk_loop
                          (emit (EvLog (ERROR_process_frame RTP_INVALID_VALUE))
                             (emit (EvLog (WARN_unrecognized_ptype (datagram_ptype dgram)))
                                (emit (EvLog (DEBUG_got_bytes (Z.of_nat (length dgram))))
                                   (set_recv_buffer
                                      (recv_into (recv_buffer_ (rd s)) dgram) (rd s)))))
                          (fu s) RTP_INVALID_VALUE)).
    { rewrite receive_one_data by lia. cbv zeta.
      rewrite dispatch_unrecognized by assumption. reflexivity. }
    eexists. split; [exact Hone|]. split; [now apply receiver_loop_step|].
    split; [|split; [reflexivity|]].
    + eapply nothing_delivered_trans; [apply nothing_delivered_recv_buffer|].
      eapply nothing_delivered_trans; [apply nothing_delivered_log|].
      eapply nothing_delivered_trans; apply nothing_delivered_log.
    + intros _ _. split; [reflexivity|]. simpl. now rewrite <- !app_assoc.
  - destruct (receive_one_dropped dgram false s (or_intror eq_refl))
      as (s' & H1 & H2 & H3 & _).
    exists s'. split; [exact H1|]. split; [now apply receiver_loop_step|].
    split; [exact H2|]. split; [exact H3|]. intros _ [=].
Qed.

Lemma dispatch_result (frame : rtp_frame) (s : loop_state) :
  keeps_payload process_opus_frame ->
  keeps_payload process_hevc_frame ->
  keeps_payload process_generic_frame ->
  0 < payload_len frame ->
  forall f' s', dispatch frame s = (Some f', s') -> err s' = RTP_OK ->
    0 < payload_len f'.
Proof.
  intros Ko Kh Kg Hlen f' s'. unfold dispatch.
  destruct (ptype frame =? RTP_FORMAT_OPUS);
    [|destruct (ptype frame =? RTP_FORMAT_HEVC);
      [|destruct (ptype frame =? RTP_FORMAT_GENERIC)]].
  - destruct (process_opus_frame frame (fu s) (err s)) as [[f1 fu1] e1] eqn:Hp.
    intros [= -> <-] He. simpl in He. subst e1. eapply Ko; eassumption.
  - destruct (process_hevc_frame frame (fu s) (err s)) as [[f1 fu1] e1] eqn:Hp.
    intros [= -> <-] He. simpl in He. subst e1. eapply Kh; eassumption.
  - destruct (process_generic_frame frame (fu s) (err s)) as [[f1 fu1] e1] eqn:Hp.
    intros [= -> <-] He. simpl in He. subst e1. eapply Kg; eassumption.
  - intros [= <- <-]. discriminate.
Qed.

(** The switch itself hands nothing over. *)
Lemma dispatch_quiet (frame : rtp_frame) (s s' : loop_state) (f : frame_ptr) :
  dispatch frame s = (f, s') -> nothing_delivered (rd s) (rd s').
Proof.
  unfold dispatch.
  destruct (ptype frame =? RTP_FORMAT_OPUS);
    [|destruct (ptype frame =? RTP_FORMAT_HEVC);
      [|destruct (ptype frame =? RTP_FORMAT_GENERIC)]].
  - destruct (process_opus_frame frame (fu s) (err s)) as [[f1 fu1] e1].
    intros [= _ <-]. apply nothing_delivered_refl.
  - destruct (process_hevc_frame frame (fu s) (err s)) as [[f1 fu1] e1].
    intros [= _ <-]. apply nothing_delivered_refl.
  - destruct (process_generic_frame frame (fu s) (err s)) as [[f1 fu1] e1].
    intros [= _ <-]. apply nothing_delivered_refl.
  - intros [= _ <-]. apply nothing_delivered_log.
Qed.

Lemma hand_over_delivers (frame : frame_ptr) (e : rtp_error_t) (r : reader) :
  exists new,
    delivered (trace_ (hand_over frame e r)) = delivered (trace_ r) ++ new /\
    (new = [] \/ (new = [frame] /\ e = RTP_OK)).
Proof.
  destruct (hand_over_ok frame r) as (_ & _ & _ & _ & Hq & Hh).
  destruct e;
    try (exists []; split; [|now left];
         rewrite app_nil_r; apply hand_over_not_ok; discriminate).
  destruct (recv_hook_ r) as [h|] eqn:Hr.
  - destruct (Hh h eq_refl) as (_ & _ & Hd). exists [frame]. split; [exact Hd | now right].
  - destruct (Hq eq_refl) as (_ & Hd). rewrite Hd.
    destruct frame; eexists; split; try reflexivity; auto.
Qed.

(** What one iteration hands to the application has a payload. *)
Lemma receive_one_delivers (ev : recv_result) (s : loop_state) :
  keeps_payload process_opus_frame ->
  keeps_payload process_hevc_frame ->
  keeps_payload process_generic_frame ->
  exists s' new,
    (receive_one ev s = IterReturn s' \/ receive_one ev s = IterContinue s') /\
    delivered (trace_ (rd s')) = delivered (trace_ (rd s)) ++ new /\
    all_with_payload new.
Proof.
  intros Ko Kh Kg. destruct ev as [code|dgram alloc_ok].
  - eexists. exists []. split; [left; reflexivity|]. split; [|constructor].
    rewrite app_nil_r. apply report_recv_error_fields.
  - destruct (Z_le_gt_dec (Z.of_nat (length dgram)) 12) as [Hshort|Hlong];
      [|destruct alloc_ok].
    + destruct (receive_one_dropped dgram alloc_ok s (or_introl Hshort))
        as (s' & H1 & H2 & _).
      exists s', []. split; [now right|]. split; [|constructor].
      rewrite app_nil_r. apply H2.
    + rewrite receive_one_data by lia. cbv zeta.
      match goal with |- context [dispatch ?f ?st] =>
        destruct (dispatch f st) as [f3 s1] eqn:Hd end.
      destruct (hand_over_delivers f3 (err s1) (rd s1)) as (new & Hnew & Hcase).
      eexists. exists new. split; [right; reflexivity|]. simpl.
      pose proof (dispatch_quiet _ _ _ _ Hd) as (_ & _ & _ & _ & _ & Hsame).
      rewrite Hnew, Hsame. simpl. rewrite delivered_app. simpl.
      rewrite app_nil_r. split; [reflexivity|].
      destruct Hcase as [->|[-> He]]; [constructor|].
      destruct f3 as [f'|]; repeat constructor.
      eapply dispatch_result; try eassumption. simpl. lia.
    + destruct (receive_one_dropped dgram false s (or_intror eq_refl))
        as (s' & H1 & H2 & _).
      exists s', []. split; [now right|]. split; [|constructor].
      rewrite app_nil_r. apply H2.
Qed.

Lemma receiver_loop_delivers (evs : list recv_result) (s : loop_state) :
  keeps_payload process_opus_frame ->
  keeps_payload process_hevc_frame ->
  keeps_payload process_generic_frame ->
  exists new,
    delivered (trace_ (rd (loop_final (receiver_loop evs s))))
      = delivered (trace_ (rd s)) ++ new /\
    all_with_payload new.
Proof.
  intros Ko Kh Kg. revert s.
  assert (Hexit : forall s,
            delivered (trace_ (emit (EvLog INFO_receiver_exiting) (rd s)))
            = delivered (trace_ (rd s)) ++ []).
  { intros s. simpl. rewrite delivered_app. reflexivity. }
  induction evs as [|ev evs IH]; intros s; simpl.
  - destruct (active (rd s)); simpl.
    + exists []. split; [now rewrite app_nil_r | constructor].
    + exists []. split; [apply Hexit | constructor].
  - destruct (active (rd s)); simpl.
    + destruct (receive_one_delivers ev s Ko Kh Kg) as (s' & new & [Hr|Hr] & Hd & Hall);
        rewrite Hr; simpl.
      * exists new. now split.
      * destruct (IH s') as (new' & Hd' & Hall').
        exists (new ++ new'). split.
        -- now rewrite Hd', Hd, app_assoc.
        -- now apply Forall_app.
    + exists []. split; [apply Hexit | constructor].
Qed.

(** C4.  A datagram of 12 bytes or fewer is dropped: the hook is not called,
    the queue does not grow, the fragment vector and [err] are untouched, and
    the loop goes on with the next datagram.  As a consequence every frame
    the loop hands to the application has a payload of positive length,
    provided no format handler reports success with a frame without payload
    when it was given a frame with one. *)
Theorem short_datagram_never_delivered :
  (forall (dgram : list Z) (alloc_ok : bool) (rest : list recv_result)
          (s : loop_state),
     Z.of_nat (length dgram) <= 12 -> active (rd s) = true ->
     exists s',
       receive_one (RecvData dgram alloc_ok) s = IterContinue s' /\
       receiver_loop (RecvData dgram alloc_ok :: rest) s = receiver_loop rest s' /\
       nothing_delivered (rd s) (rd s') /\ fu s' = fu s /\ err s' = err s) /\
  (keeps_payload process_opus_frame ->
   keeps_payload process_hevc_frame ->
   keeps_payload process_generic_frame ->
   forall (evs : list recv_result) (s : loop_state),
   exists new,
     delivered (trace_ (rd (loop_final (receiver_loop evs s))))
       = delivered (trace_ (rd s)) ++ new /\
     all_with_payload new).
Proof.
  split.
  - intros dgram alloc_ok rest s Hlen Ha.
    destruct (receive_one_dropped dgram alloc_ok s (or_introl Hlen))
      as (s' & H1 & H2 & H3 & H4).
    exists s'. split; [exact H1|]. split; [now apply receiver_loop_step|].
    split; [exact H2|]. split; assumption.
  - intros Ko Kh Kg evs s. now apply receiver_loop_delivers.
Qed.

(** In queue mode an iteration appends to the queue exactly what it
    delivers. *)
Lemma receive_one_queue_mode (ev : recv_result) (s : loop_state) :
  recv_hook_ (rd s) = None ->
  exists s' new,
    (receive_one ev s = IterReturn s' \/ receive_one ev s = IterContinue s') /\
    recv_hook_ (rd s') = None /\
    framesOut_ (rd s') = framesOut_ (rd s) ++ new /\
    delivered (trace_ (rd s')) = delivered (trace_ (rd s)) ++ new.
Proof.
  intros Hr. destruct ev as [code|dgram alloc_ok].
  - destruct (report_recv_error_fields code (rd s)) as (_ & Hq & Hh & _ & Hd).
    eexists. exists []. split; [left; reflexivity|]. simpl.
    rewrite !app_nil_r, Hh. now repeat split.
  - destruct (Z_le_gt_dec (Z.of_nat (length dgram)) 12) as [Hshort|Hlong];
      [|destruct alloc_ok].
    + destruct (receive_one_dropped dgram alloc_ok s (or_introl Hshort))
        as (s' & H1 & (_ & Hq & _ & Hh & _ & Hd) & _).
      exists s', []. rewrite !app_nil_r, Hh. split; [now right|]. now repeat split.
    + rewrite receive_one_data by lia. cbv zeta.
      match goal with |- context [dispatch ?f ?st] =>
        destruct (dispatch f st) as [f3 s1] eqn:Hdisp end.
      pose proof (dispatch_quiet _ _ _ _ Hdisp) as (_ & Hq1 & _ & Hh1 & _ & Hd1).
      simpl in Hq1, Hh1, Hd1. rewrite delivered_app in Hd1. simpl in Hd1.
      rewrite app_nil_r in Hd1. rewrite Hr in Hh1.
      destruct (err s1) eqn:He;
        try (eexists; exists []; split; [right; reflexivity|]; cbn [rd];
             match goal with |- context [hand_over f3 ?e (rd s1)] =>
               destruct (hand_over_not_ok f3 e (rd s1))
                 as (_ & Hq2 & _ & Hh2 & _ & Hd2); [discriminate|]
             end;
             rewrite Hq2, Hh2, Hd2, Hq1, Hd1, !app_nil_r; now repeat split).
      destruct (hand_over_ok f3 (rd s1)) as (_ & Hh2 & _ & _ & Hq2 & _).
      destruct (Hq2 Hh1) as (Hfo & Hdel).
      eexists. exists (match f3 with Some _ => [f3] | None => [] end).
      split; [right; reflexivity|]. cbn [rd]. rewrite Hh2, Hfo, Hdel, Hd1.
      split; [exact Hh1|]. split; [|reflexivity].
      destruct f3; simpl; now rewrite Hq1, ?app_nil_r.
    + destruct (receive_one_dropped dgram false s (or_intror eq_refl))
        as (s' & H1 & (_ & Hq & _ & Hh & _ & Hd) & _).
      exists s', []. rewrite !app_nil_r, Hh. split; [now right|]. now repeat split.
Qed.

Lemma receiver_loop_queue_mode (evs : list recv_result) (s : loop_state) :
  recv_hook_ (rd s) = None ->
  exists new,
    framesOut_ (rd (loop_final (receiver_loop evs s))) = framesOut_ (rd s) ++ new /\
    delivered (trace_ (rd (loop_final (receiver_loop evs s))))
      = delivered (trace_ (rd s)) ++ new.
Proof.
  revert s. induction evs as [|ev evs IH]; intros s Hr; simpl.
  - exists []. rewrite !app_nil_r.
    destruct (active (rd s)); simpl; [now split|].
    split; [reflexivity|]. rewrite delivered_app. simpl. apply app_nil_r.
  - destruct (active (rd s)); simpl.
    + destruct (receive_one_queue_mode ev s Hr) as (s' & new & [Hs|Hs] & Hh & Hq & Hd);
        rewrite Hs; simpl.
      * exists new. now split.
      * destruct (IH s' Hh) as (new' & Hq' & Hd').
        exists (new ++ new'). rewrite Hq', Hd', Hq, Hd, !app_assoc. now split.
    + exists []. rewrite !app_nil_r. split; [reflexivity|].
      rewrite delivered_app. simpl. apply app_nil_r.
Qed.

End ReceiveLoop.

Lemma recv_failure_ends_loop_witness :
  receiver_loop (ext := windows_externals) [RecvData one_byte_packet true]
      (mk_loop started_reader [] RTP_OK)
    = LoopBlocked
        (mk_loop
           (add_outgoing_frame (Some one_byte_frame)
              (emit (EvLog DEBUG_returning_frame)
                 (emit (EvLog (DEBUG_got_bytes 13))
                    (set_recv_buffer (recv_into (recv_buffer_ started_reader) one_byte_packet)
                       started_reader))))
           [] RTP_OK) /\
  (exists s1,
    receiver_loop (ext := windows_externals)
      ([RecvData one_byte_packet true]
         ++ RecvFail WSAEWOULDBLOCK :: [RecvData one_byte_packet true])
      (mk_loop started_reader [] RTP_OK)
      = LoopReturned s1 /\
    active (rd s1) = true /\
    framesOut_ (rd s1) = [Some one_byte_frame]) /\
  (exists s1,
    receiver_loop (ext := windows_externals)
      ([RecvData one_byte_packet true]
         ++ RecvFail 10054 :: [RecvData one_byte_packet true])
      (mk_loop started_reader [] RTP_OK)
      = LoopReturned s1 /\
    trace_ (rd s1)
      = trace_ (add_outgoing_frame (Some one_byte_frame)
                  (emit (EvLog DEBUG_returning_frame)
                     (emit (EvLog (DEBUG_got_bytes 13)) started_reader)))
        ++ [EvSocketError 10054]) /\
  (exists s1,
    receiver_loop (ext := sample_externals)
      ([] ++ RecvFail 104 :: [RecvData one_byte_packet true])
      (mk_loop started_reader [] RTP_OK)
      = LoopReturned s1 /\
    trace_ (rd s1) = trace_ started_reader ++ [EvPerror]).
Proof.
  assert (H : receiver_loop (ext := windows_externals) [RecvData one_byte_packet true]
                (mk_loop started_reader [] RTP_OK)
              = LoopBlocked
                  (mk_loop
                     (add_outgoing_frame (Some one_byte_frame)
                        (emit (EvLog DEBUG_returning_frame)
                           (emit (EvLog (DEBUG_got_bytes 13))
                              (set_recv_buffer
                                 (recv_into (recv_buffer_ started_reader) one_byte_packet)
                                 started_reader))))
                     [] RTP_OK)) by (vm_compute; reflexivity).
  split; [exact H|]. split; [|split].
  - destruct (recv_failure_ends_loop (ext := windows_externals)
                [RecvData one_byte_packet true] [RecvData one_byte_packet true]
                WSAEWOULDBLOCK _ _ H) as (H1 & H2 & H3 & _).
    eexists. split; [exact H1|]. split; [exact H2|]. exact H3.
  - destruct (recv_failure_ends_loop (ext := windows_externals)
                [RecvData one_byte_packet true] [RecvData one_byte_packet true]
                10054 _ _ H) as (H1 & _ & _ & _ & _ & H6 & _).
    eexists. split; [exact H1|].
    exact (f_equal trace_ (H6 eq_refl ltac:(discriminate))).
  - destruct (recv_failure_ends_loop (ext := sample_externals)
                [] [RecvData one_byte_packet true] 104
                (mk_loop started_reader [] RTP_OK)
                (mk_loop started_reader [] RTP_OK) eq_refl)
      as (H1 & _ & _ & _ & _ & _ & H7).
    eexists. split; [exact H1|]. exact (f_equal trace_ (H7 eq_refl)).
Defined.

(** C3, counterexample to the claim as stated.  On Windows a would-block
    failure ends the loop (the datagram that follows is never read), and
    after a failure with another code (104) [active()] still answers
    true. *)
Lemma recv_failure_counterexample :
  frame_receiver (ext := windows_externals)
      [RecvFail WSAEWOULDBLOCK; RecvData one_byte_packet true] started_reader RTP_OK
    = LoopReturned (mk_loop (emit (EvLog INFO_receiver_starting) started_reader) [] RTP_OK) /\
  active (rd (loop_final (frame_receiver (ext := sample_externals)
                            [RecvFail 104] started_reader RTP_OK))) = true.
Proof. split; vm_compute; reflexivity. Qed.

Lemma unrecognized_ptype_dropped_witness :
  exists s',
    receive_one (ext := sample_externals) (RecvData unknown_type_packet true)
      (mk_loop started_reader [] RTP_OK) = IterContinue s' /\
    receiver_loop (ext := sample_externals)
      (RecvData unknown_type_packet true :: [RecvData one_byte_packet true])
      (mk_loop started_reader [] RTP_OK)
      = receiver_loop (ext := sample_externals) [RecvData one_byte_packet true] s' /\
    nothing_delivered started_reader (rd s') /\
    fu s' = [] /\
    (12 < Z.of_nat (length unknown_type_packet) -> true = true ->
     err s' = RTP_INVALID_VALUE /\
     trace_ (rd s') =
       trace_ started_reader ++
       [EvLog (DEBUG_got_bytes (Z.of_nat (length unknown_type_packet)));
        EvLog (WARN_unrecognized_ptype (datagram_ptype unknown_type_packet));
        EvLog (ERROR_process_frame RTP_INVALID_VALUE)]).
Proof.
  apply (unrecognized_ptype_dropped (ext := sample_externals)
           unknown_type_packet true [RecvData one_byte_packet true]
           (mk_loop started_reader [] RTP_OK));
    vm_compute; congruence.
Defined.

(** The handlers of the spec never return a frame without payload. *)
Lemma generic_keeps_payload : keeps_payload generic.process_generic_frame.
Proof. intros f fu e f' fu' Hlen [= <- _]. exact Hlen. Qed.

Lemma opus_keeps_payload : keeps_payload opus.process_opus_frame.
Proof. intros f fu e f' fu' Hlen [= <- _]. exact Hlen. Qed.

Lemma reassembled_not_empty (frags : list rtp_frame) (f : rtp_frame) :
  (2 <= length (hevc.reassembled (frags ++ [f])))%nat.
Proof.
  unfold hevc.reassembled.
  destruct (frags ++ [f]) as [|first l] eqn:H.
  - now destruct frags.
  - rewrite length_app. simpl. lia.
Qed.

Lemma hevc_keeps_payload : keeps_payload hevc.process_hevc_frame.
Proof.
  intros f fu e f' fu' Hlen. unfold hevc.process_hevc_frame.
  destruct (negb _); [intros [= <- _]; exact Hlen|].
  destruct (hevc.fu_start _); [discriminate|].
  destruct (hevc.last_seen fu) as [prev|]; [|discriminate].
  destruct (hevc.follows prev f); [|discriminate].
  destruct (hevc.fu_end _); [|discriminate].
  intros [= <- _]. simpl.
  pose proof (reassembled_not_empty fu f). lia.
Qed.

Lemma short_datagram_never_delivered_witness :
  (exists s',
     receive_one (ext := sample_externals) (RecvData header_only_packet true)
       (mk_loop started_reader [] RTP_OK) = IterContinue s' /\
     receiver_loop (ext := sample_externals)
       (RecvData header_only_packet true :: [RecvData one_byte_packet true])
       (mk_loop started_reader [] RTP_OK)
       = receiver_loop (ext := sample_externals) [RecvData one_byte_packet true] s' /\
     nothing_delivered started_reader (rd s') /\ fu s' = [] /\ err s' = RTP_OK) /\
  (exists new,
     delivered (trace_ (rd (loop_final
        (receiver_loop (ext := sample_externals)
           [RecvData header_only_packet true; RecvData one_byte_packet true]
           (mk_loop started_reader [] RTP_OK)))))
       = delivered (trace_ started_reader) ++ new /\
     all_with_payload new).
Proof.
  destruct (short_datagram_never_delivered (ext := sample_externals)) as [H1 H2].
  split.
  - apply (H1 header_only_packet true [RecvData one_byte_packet true]
              (mk_loop started_reader [] RTP_OK)).
    + vm_compute. discriminate.
    + reflexivity.
  - apply (H2 opus_keeps_payload hevc_keeps_payload generic_keeps_payload
              [RecvData header_only_packet true; RecvData one_byte_packet true]
              (mk_loop started_reader [] RTP_OK)).
Defined.

(** C7.  The queue is first-in first-out.  Frames enqueued one after the
    other on an empty queue are returned by as many successive [pull_frame]
    calls in exactly the order of enqueueing, after which the queue is empty
    again; for calls of the producer and of the consumer in any order, the
    frames pulled so far followed by the frames still queued are the frames
    that were queued at first followed by the frames enqueued, in that
    order; and in queue mode the receive loop, whatever the format handlers,
    appends to the queue exactly the frames it completes, in the order it
    completes them. *)
Theorem queue_is_fifo :
  (forall (r : reader) (fs : list rtp_frame),
     active r = true -> frames_mtx_ r = false -> framesOut_ r = [] ->
     fst (pull_many (length fs) (enqueue_all (map Some fs) r)) = map Some fs /\
     framesOut_ (snd (pull_many (length fs) (enqueue_all (map Some fs) r))) = []) /\
  (forall (r r' : reader) (ops : list queue_op) (out : list frame_ptr),
     active r = true -> run_ops ops r = Some (out, r') ->
     out ++ framesOut_ r' = framesOut_ r ++ enqueued ops) /\
  (forall (ext : Externals) (evs : list recv_result) (s : loop_state),
     recv_hook_ (rd s) = None ->
     exists new,
       framesOut_ (rd (loop_final (receiver_loop evs s))) = framesOut_ (rd s) ++ new /\
       delivered (trace_ (rd (loop_final (receiver_loop evs s))))
         = delivered (trace_ (rd s)) ++ new).
Proof.
  split; [|split].
  - intros r fs Ha Hm Hq.
    rewrite <- (length_map Some fs).
    apply pull_many_drains.
    + now rewrite enqueue_all_active.
    + now rewrite enqueue_all_mtx.
    + now rewrite enqueue_all_framesOut, Hq.
  - intros r r' ops out. apply run_ops_conserves.
  - intros ext evs s. apply receiver_loop_queue_mode.
Qed.

Lemma queue_is_fifo_witness :
  fst (pull_many 3 (enqueue_all
         [Some (sample_frame 1); Some (sample_frame 2); Some (sample_frame 3)]
         started_reader))
    = [Some (sample_frame 1); Some (sample_frame 2); Some (sample_frame 3)] /\
  (exists r',
    run_ops [OpEnqueue (Some (sample_frame 1)); OpEnqueue (Some (sample_frame 2));
             OpPull; OpEnqueue (Some (sample_frame 3)); OpPull] started_reader
      = Some ([Some (sample_frame 1); Some (sample_frame 2)], r') /\
    [Some (sample_frame 1); Some (sample_frame 2)] ++ framesOut_ r'
      = framesOut_ started_reader
        ++ [Some (sample_frame 1); Some (sample_frame 2); Some (sample_frame 3)]) /\
  (exists new,
     framesOut_ (rd (loop_final
        (receiver_loop (ext := sample_externals)
           [RecvData one_byte_packet true; RecvData one_byte_packet true]
           (mk_loop started_reader [] RTP_OK))))
       = framesOut_ started_reader ++ new /\
     delivered (trace_ (rd (loop_final
        (receiver_loop (ext := sample_externals)
           [RecvData one_byte_packet true; RecvData one_byte_packet true]
           (mk_loop started_reader [] RTP_OK)))))
       = delivered (trace_ started_reader) ++ new).
Proof.
  split; [|split].
  - apply (proj1 queue_is_fifo started_reader
             [sample_frame 1; sample_frame 2; sample_frame 3]); reflexivity.
  - eexists. split; [vm_compute; reflexivity|].
    apply (proj1 (proj2 queue_is_fifo) started_reader _
             [OpEnqueue (Some (sample_frame 1)); OpEnqueue (Some (sample_frame 2));
              OpPull; OpEnqueue (Some (sample_frame 3)); OpPull]);
      [reflexivity | vm_compute; reflexivity].
  - apply (proj2 (proj2 queue_is_fifo) sample_externals
             [RecvData one_byte_packet true; RecvData one_byte_packet true]
             (mk_loop started_reader [] RTP_OK)).
    reflexivity.
Defined.

(** ** Single-packet formats, with the handlers of the spec *)

Lemma payload_bytes_of_datagram (dgram : list Z) :
  payload_bytes (frame_of_datagram dgram) = rtp_payload dgram.
Proof.
  change (firstn (Z.to_nat (Z.of_nat (length dgram) - 12)) (skipn 12 dgram)
          = skipn 12 dgram).
  apply firstn_all2. rewrite length_skipn. lia.
Qed.

Lemma payload_bytes_set_frame_type (t : frame_type_t) (f : rtp_frame) :
  payload_bytes (set_frame_type t f) = payload_bytes f.
Proof. reflexivity. Qed.

Lemma receiver_loop_nil (ext : Externals) (s : loop_state) :
  active (rd s) = true -> receiver_loop [] s = LoopBlocked s.
Proof. intros Ha. simpl. now rewrite Ha. Qed.

Section SinglePacket.
Variables (g o h : Z) (w : bool).
Local Abbreviation ext := (spec_externals g o h w).
Hypothesis labels : case_labels_distinct ext.

Lemma dispatch_opus (frame : rtp_frame) (s : loop_state) :
  ptype frame = o ->
  dispatch (ext := ext) frame s
  = (Some (set_frame_type FRAME_TYPE_OPUS frame), mk_loop (rd s) (fu s) RTP_OK).
Proof.
  intros Hp. unfold dispatch. simpl. now rewrite Hp, Z.eqb_refl.
Qed.

Lemma dispatch_generic (frame : rtp_frame) (s : loop_state) :
  ptype frame = g ->
  dispatch (ext := ext) frame s
  = (Some (set_frame_type FRAME_TYPE_GENERIC frame), mk_loop (rd s) (fu s) RTP_OK).
Proof.
  intros Hp. destruct labels as (Hoh & Hog & Hhg). simpl in Hoh, Hog, Hhg.
  unfold dispatch. simpl. rewrite Hp, Z.eqb_refl.
  destruct (g =? o) eqn:E1; [apply Z.eqb_eq in E1; congruence|].
  destruct (g =? h) eqn:E2; [apply Z.eqb_eq in E2; congruence|].
  reflexivity.
Qed.

Lemma dispatch_hevc (frame : rtp_frame) (s : loop_state) :
  ptype frame = h ->
  dispatch (ext := ext) frame s
  = let '(f, fu', e) := hevc.process_hevc_frame frame (fu s) (err s) in
    (f, mk_loop (rd s) fu' e).
Proof.
  intros Hp. destruct labels as (Hoh & Hog & Hhg). simpl in Hoh, Hog, Hhg.
  unfold dispatch. simpl. rewrite Hp, Z.eqb_refl.
  destruct (h =? o) eqn:E1; [apply Z.eqb_eq in E1; congruence|].
  reflexivity.
Qed.

(** C2.  A datagram of more than 12 bytes that fits the receive buffer,
    whose payload type is Generic or Opus and whose frame could be
    allocated, makes the loop deliver exactly one frame: pushed on the queue
    when no hook is installed, passed to the hook otherwise.  Its payload
    bytes are the bytes of the datagram from offset 12 to the end, byte for
    byte, and its payload length is the length of the datagram minus 12.
    The datagram has been written within the buffer, which keeps its
    length. *)
Theorem single_packet_payload (dgram : list Z) (s : loop_state) :
  12 < Z.of_nat (length dgram) ->
  fits_recv_buffer (rd s) dgram ->
  datagram_ptype dgram = g \/ datagram_ptype dgram = o ->
  exists f s',
    receive_one (ext := ext) (RecvData dgram true) s = IterContinue s' /\
    delivered (trace_ (rd s')) = delivered (trace_ (rd s)) ++ [Some f] /\
    (recv_hook_ (rd s) = None -> framesOut_ (rd s') = framesOut_ (rd s) ++ [Some f]) /\
    (forall hk, recv_hook_ (rd s) = Some hk ->
       framesOut_ (rd s') = framesOut_ (rd s) /\
       exists tr, trace_ (rd s') = tr ++ [EvHook hk (recv_hook_arg_ (rd s)) (Some f)]) /\
    payload_bytes f = skipn 12 dgram /\
    payload_len f = Z.of_nat (length dgram) - 12 /\
    (forall i, (12 <= i < length dgram)%nat ->
       nth (i - 12) (payload_bytes f) 0 = nth i dgram 0) /\
    fu s' = fu s /\ err s' = RTP_OK /\
    recv_buffer_ (rd s') = recv_into (recv_buffer_ (rd s)) dgram /\
    length (recv_buffer_ (rd s')) = length (recv_buffer_ (rd s)).
Proof.
  intros Hlen Hfit Hpt.
  assert (Hd : exists t,
    dispatch (ext := ext) (frame_of_datagram dgram)
      (mk_loop (emit (EvLog (DEBUG_got_bytes (Z.of_nat (length dgram))))
                  (set_recv_buffer (recv_into (recv_buffer_ (rd s)) dgram) (rd s)))
               (fu s) (err s))
    = (Some (set_frame_type t (frame_of_datagram dgram)),
       mk_loop (emit (EvLog (DEBUG_got_bytes (Z.of_nat (length dgram))))
                  (set_recv_buffer (recv_into (recv_buffer_ (rd s)) dgram) (rd s)))
               (fu s) RTP_OK)).
  { destruct Hpt as [Hpt|Hpt].
    - exists FRAME_TYPE_GENERIC. now rewrite dispatch_generic.
    - exists FRAME_TYPE_OPUS. now rewrite dispatch_opus. }
  destruct Hd as [t Hd].
  exists (set_frame_type t (frame_of_datagram dgram)). eexists.
  split; [rewrite receive_one_data by exact Hlen; cbv zeta; rewrite Hd; reflexivity|].
  cbv [rd fu err].
  match goal with |- context [hand_over ?fr RTP_OK ?r1] =>
    destruct (hand_over_ok fr r1) as (_ & Hhk & Harg & _ & Hq & Hh) end.
  split; [|split; [|split; [|split; [|split; [|split; [|split; [|split; [|split]]]]]]]].
  - destruct (recv_hook_ (rd s)) as [hk|] eqn:Hr.
    + destruct (Hh hk Hr) as (_ & _ & Hdel). rewrite Hdel. simpl.
      rewrite delivered_app. simpl. now rewrite app_nil_r.
    + destruct (Hq Hr) as (_ & Hdel). rewrite Hdel. simpl.
      rewrite delivered_app. simpl. now rewrite app_nil_r.
  - intros Hr. destruct (Hq Hr) as (Hfo & _). rewrite Hfo. reflexivity.
  - intros hk Hr. destruct (Hh hk Hr) as (Hfo & Htr & _). split; [exact Hfo|].
    eexists. rewrite Htr. simpl. rewrite <- app_assoc. simpl.
    change (?a ++ [?x; ?y; ?z]) with (a ++ [x; y] ++ [z]).
    rewrite app_assoc. reflexivity.
  - rewrite payload_bytes_set_frame_type. apply payload_bytes_of_datagram.
  - reflexivity.
  - intros i Hi. rewrite payload_bytes_set_frame_type, payload_bytes_of_datagram.
    unfold rtp_payload. rewrite nth_skipn. f_equal. lia.
  - reflexivity.
  - reflexivity.
  - apply hand_over_recv_buffer.
  - rewrite hand_over_recv_buffer. simpl. now apply recv_into_length.
Qed.

End SinglePacket.

(** ** HEVC fragmentation units, with the handler of the spec *)

Lemma last_seen_app (fu : list rtp_frame) (f : rtp_frame) :
  hevc.last_seen (fu ++ [f]) = Some f.
Proof.
  induction fu as [|a fu IH]; [reflexivity|].
  simpl. destruct (fu ++ [f]) eqn:E; [now destruct fu | exact IH].
Qed.

Lemma consecutive_app (sn : Z) (ds : list (list Z)) (d : list Z) :
  consecutive sn (ds ++ [d])
  = consecutive sn ds && (datagram_seq d =? (last_seq sn ds + 1) mod 65536).
Proof.
  revert sn. induction ds as [|a ds IH]; intros sn; simpl.
  - now rewrite andb_true_r.
  - now rewrite IH, andb_assoc.
Qed.

Lemma is_fu_inv (h : Z) (dgram : list Z) :
  is_fu h dgram = true ->
  12 < Z.of_nat (length dgram) /\ datagram_ptype dgram = h /\
  (hevc.nal_type (rtp_payload dgram) =? hevc.NAL_TYPE_FU) = true.
Proof.
  unfold is_fu. intros H.
  apply andb_true_iff in H. destruct H as [H H3].
  apply andb_true_iff in H. destruct H as [H1 H2].
  apply Z.ltb_lt in H1. apply Z.eqb_eq in H2. now repeat split.
Qed.

Lemma process_fu_start (h : Z) (dgram : list Z) (fu : list rtp_frame) (e : rtp_error_t) :
  is_fu_start h dgram = true ->
  hevc.process_hevc_frame (frame_of_datagram dgram) fu e
  = (None, [frame_of_datagram dgram], RTP_NOT_READY).
Proof.
  unfold is_fu_start. intros H. apply andb_true_iff in H. destruct H as [H Hs].
  apply is_fu_inv in H. destruct H as (_ & _ & Hn).
  unfold hevc.process_hevc_frame. cbv zeta.
  rewrite payload_bytes_of_datagram, Hn, Hs. reflexivity.
Qed.

Lemma process_fu_middle (h : Z) (dgram : list Z) (fu : list rtp_frame)
  (prev : rtp_frame) (e : rtp_error_t) :
  is_fu_middle h dgram = true ->
  hevc.last_seen fu = Some prev ->
  datagram_seq dgram = (seq prev + 1) mod 65536 ->
  hevc.process_hevc_frame (frame_of_datagram dgram) fu e
  = (None, fu ++ [frame_of_datagram dgram], RTP_NOT_READY).
Proof.
  unfold is_fu_middle. intros H Hl Hseq.
  apply andb_true_iff in H. destruct H as [H He].
  apply andb_true_iff in H. destruct H as [H Hs].
  apply negb_true_iff in He, Hs.
  apply is_fu_inv in H. destruct H as (_ & _ & Hn).
  unfold hevc.process_hevc_frame, hevc.follows. cbv zeta.
  rewrite payload_bytes_of_datagram, Hn, Hs, He, Hl.
  change (seq (frame_of_datagram dgram)) with (datagram_seq dgram).
  rewrite Hseq, Z.eqb_refl. reflexivity.
Qed.

Lemma process_fu_end (h : Z) (dgram : list Z) (fu : list rtp_frame)
  (prev : rtp_frame) (e : rtp_error_t) :
  is_fu_end h dgram = true ->
  hevc.last_seen fu = Some prev ->
  hevc.process_hevc_frame (frame_of_datagram dgram) fu e
  = if datagram_seq dgram =? (seq prev + 1) mod 65536
    then (Some (hevc.completed (fu ++ [frame_of_datagram dgram])
                  (frame_of_datagram dgram)), [], RTP_OK)
    else (None, [], RTP_NOT_READY).
Proof.
  unfold is_fu_end. intros H Hl.
  apply andb_true_iff in H. destruct H as [H He].
  apply andb_true_iff in H. destruct H as [H Hs].
  apply negb_true_iff in Hs.
  apply is_fu_inv in H. destruct H as (_ & _ & Hn).
  unfold hevc.process_hevc_frame, hevc.follows. cbv zeta.
  rewrite payload_bytes_of_datagram, Hn, Hs, He, Hl. reflexivity.
Qed.

Lemma fu_payload_of_datagram (dgram : list Z) :
  hevc.fu_payload (frame_of_datagram dgram) = fu_data dgram.
Proof.
  unfold hevc.fu_payload, fu_data. now rewrite payload_bytes_of_datagram.
Qed.

Lemma reassembled_datagrams (first : list Z) (others : list (list Z)) :
  hevc.reassembled (map frame_of_datagram (first :: others))
  = hevc.nal_header (rtp_payload first) ++ concat (map fu_data (first :: others)).
Proof.
  unfold hevc.reassembled. cbn [map].
  rewrite payload_bytes_of_datagram, !fu_payload_of_datagram. f_equal.
  rewrite map_map. do 2 f_equal. apply map_ext. intros d. apply fu_payload_of_datagram.
Qed.

Lemma payload_bytes_completed (frags : list rtp_frame) (f : rtp_frame) :
  payload_bytes (hevc.completed frags f) = hevc.reassembled frags /\
  payload_len (hevc.completed frags f) = Z.of_nat (length (hevc.reassembled frags)).
Proof.
  split; [|reflexivity].
  unfold payload_bytes, hevc.completed. cbv [payload_len payload data].
  rewrite Nat2Z.id. apply firstn_all.
Qed.

Section FragmentTrain.
Variables (g o h : Z) (w : bool).
Local Abbreviation ext := (spec_externals g o h w).
Hypothesis labels : case_labels_distinct ext.

(** The iteration for a fragmentation unit: the frame built from the
    datagram goes to the HEVC handler and the result is handed over. *)
Lemma receive_one_fu (dgram : list Z) (s : loop_state) :
  is_fu h dgram = true ->
  receive_one (ext := ext) (RecvData dgram true) s
  = let r1 := emit (EvLog (DEBUG_got_bytes (Z.of_nat (length dgram))))
                (set_recv_buffer (recv_into (recv_buffer_ (rd s)) dgram) (rd s)) in
    let '(f, fu', e) :=
      hevc.process_hevc_frame (frame_of_datagram dgram) (fu s) (err s) in
    IterContinue (mk_loop (hand_over f e r1) fu' e).
Proof.
  intros H. apply is_fu_inv in H. destruct H as (Hlen & Hpt & _).
  rewrite receive_one_data by exact Hlen. cbv zeta.
  rewrite (dispatch_hevc g o h w labels) by exact Hpt.
  cbv [rd fu err].
  destruct (hevc.process_hevc_frame _ _ _) as [[f fu'] e]. reflexivity.
Qed.

Lemma not_ready_quiet (r : reader) (n : Z) (buf : list Z) :
  nothing_delivered r
    (hand_over None RTP_NOT_READY
       (emit (EvLog (DEBUG_got_bytes n)) (set_recv_buffer buf r))).
Proof.
  eapply nothing_delivered_trans; [apply nothing_delivered_recv_buffer|].
  eapply nothing_delivered_trans; [apply nothing_delivered_log|].
  apply hand_over_not_ok. discriminate.
Qed.

Lemma loop_fu_start (first : list Z) (evs : list recv_result) (s : loop_state) :
  active (rd s) = true -> is_fu_start h first = true ->
  exists s',
    receiver_loop (ext := ext) (RecvData first true :: evs) s
      = receiver_loop (ext := ext) evs s' /\
    nothing_delivered (rd s) (rd s') /\
    fu s' = [frame_of_datagram first] /\
    recv_buffer_ (rd s') = recv_into (recv_buffer_ (rd s)) first.
Proof.
  intros Ha Hs.
  assert (Hfu : is_fu h first = true)
    by (unfold is_fu_start in Hs; now apply andb_true_iff in Hs).
  eexists. split; [|split; [|split]].
  - apply receiver_loop_step; [exact Ha|].
    rewrite (receive_one_fu _ _ Hfu). cbv zeta.
    rewrite (process_fu_start h _ _ _ Hs). reflexivity.
  - apply not_ready_quiet.
  - reflexivity.
  - reflexivity.
Qed.

Lemma loop_fu_middles (mids : list (list Z)) (evs : list recv_result)
  (s : loop_state) (prev : rtp_frame) :
  active (rd s) = true ->
  forallb (is_fu_middle h) mids = true ->
  hevc.last_seen (fu s) = Some prev ->
  consecutive (seq prev) mids = true ->
  exists s' prev',
    receiver_loop (ext := ext) (received mids ++ evs) s
      = receiver_loop (ext := ext) evs s' /\
    nothing_delivered (rd s) (rd s') /\
    fu s' = fu s ++ map frame_of_datagram mids /\
    hevc.last_seen (fu s') = Some prev' /\
    seq prev' = last_seq (seq prev) mids /\
    recv_buffer_ (rd s') = recv_all (recv_buffer_ (rd s)) mids.
Proof.
  revert s prev. induction mids as [|d mids IH]; intros s prev Ha Hm Hl Hc.
  - exists s, prev. simpl. rewrite app_nil_r.
    repeat split; try assumption; reflexivity.
  - simpl in Hm, Hc.
    apply andb_true_iff in Hm. destruct Hm as [Hd Hm].
    apply andb_true_iff in Hc. destruct Hc as [Hseq Hc].
    apply Z.eqb_eq in Hseq.
    assert (Hfu : is_fu h d = true).
    { unfold is_fu_middle in Hd. apply andb_true_iff in Hd. destruct Hd as [Hd _].
      now apply andb_true_iff in Hd. }
    pose (s1 := mk_loop
                  (hand_over None RTP_NOT_READY
                     (emit (EvLog (DEBUG_got_bytes (Z.of_nat (length d))))
                        (set_recv_buffer (recv_into (recv_buffer_ (rd s)) d) (rd s))))
                  (fu s ++ [frame_of_datagram d]) RTP_NOT_READY).
    assert (Hq : nothing_delivered (rd s) (rd s1)) by apply not_ready_quiet.
    destruct (IH s1 (frame_of_datagram d))
      as (s' & prev' & Hloop & Hnd & Hfus & Hls & Hsq & Hbuf).
    + destruct Hq as (Hact & _). unfold active in *. now rewrite Hact.
    + exact Hm.
    + apply last_seen_app.
    + exact Hc.
    + exists s', prev'. split; [|split; [|split; [|split; [|split]]]].
      * simpl app. rewrite <- Hloop.
        apply receiver_loop_step; [exact Ha|].
        rewrite (receive_one_fu _ _ Hfu). cbv zeta.
        rewrite (process_fu_middle h _ _ prev _ Hd Hl Hseq). reflexivity.
      * eapply nothing_delivered_trans; eassumption.
      * rewrite Hfus. simpl. now rewrite <- app_assoc.
      * exact Hls.
      * exact Hsq.
      * exact Hbuf.
Qed.

Lemma loop_fu_end (last : list Z) (evs : list recv_result)
  (s : loop_state) (prev : rtp_frame) :
  active (rd s) = true ->
  is_fu_end h last = true ->
  hevc.last_seen (fu s) = Some prev ->
  exists s',
    receiver_loop (ext := ext) (RecvData last true :: evs) s
      = receiver_loop (ext := ext) evs s' /\
    fu s' = [] /\
    active (rd s') = true /\
    recv_buffer_ (rd s') = recv_into (recv_buffer_ (rd s)) last /\
    if datagram_seq last =? (seq prev + 1) mod 65536 then
      let f := hevc.completed (fu s ++ [frame_of_datagram last])
                 (frame_of_datagram last) in
      delivered (trace_ (rd s')) = delivered (trace_ (rd s)) ++ [Some f] /\
      (recv_hook_ (rd s) = None -> framesOut_ (rd s') = framesOut_ (rd s) ++ [Some f]) /\
      (forall hk, recv_hook_ (rd s) = Some hk -> framesOut_ (rd s') = framesOut_ (rd s))
    else nothing_delivered (rd s) (rd s').
Proof.
  intros Ha He Hl.
  assert (Hfu : is_fu h last = true).
  { unfold is_fu_end in He. apply andb_true_iff in He. destruct He as [He _].
    now apply andb_true_iff in He. }
  pose proof (process_fu_end h last (fu s) prev (err s) He Hl) as Hp.
  destruct (datagram_seq last =? (seq prev + 1) mod 65536).
  - eexists. split; [|split; [|split; [|split]]].
    + apply receiver_loop_step; [exact Ha|].
      rewrite (receive_one_fu _ _ Hfu). cbv zeta. rewrite Hp. reflexivity.
    + reflexivity.
    + cbv [rd].
      match goal with |- active (hand_over ?fr RTP_OK ?r1) = true =>
        destruct (hand_over_ok fr r1) as (Hact & _) end.
      rewrite Hact. exact Ha.
    + cbn [rd]. now rewrite hand_over_recv_buffer.
    + cbv [rd fu err]. cbv zeta.
      match goal with |- context [hand_over ?fr RTP_OK ?r1] =>
        destruct (hand_over_ok fr r1) as (_ & _ & _ & _ & Hq & Hh) end.
      split; [|split].
      * destruct (recv_hook_ (rd s)) as [hk|] eqn:Hr.
        -- destruct (Hh hk Hr) as (_ & _ & Hdel). rewrite Hdel. simpl.
           rewrite delivered_app. simpl. now rewrite app_nil_r.
        -- destruct (Hq Hr) as (_ & Hdel). rewrite Hdel. simpl.
           rewrite delivered_app. simpl. now rewrite app_nil_r.
      * intros Hr. destruct (Hq Hr) as (Hfo & _). rewrite Hfo. reflexivity.
      * intros hk Hr. destruct (Hh hk Hr) as (Hfo & _). exact Hfo.
  - eexists. split; [|split; [|split; [|split]]].
    + apply receiver_loop_step; [exact Ha|].
      rewrite (receive_one_fu _ _ Hfu). cbv zeta. rewrite Hp. reflexivity.
    + reflexivity.
    + cbv [rd]. exact Ha.
    + reflexivity.
    + apply not_ready_quiet.
Qed.

Lemma fu_train_complete (first : list Z) (mids : list (list Z)) (last : list Z)
  (evs : list recv_result) (s : loop_state) :
  active (rd s) = true ->
  is_fu_start h first = true ->
  forallb (is_fu_middle h) mids = true ->
  is_fu_end h last = true ->
  consecutive (datagram_seq first) (mids ++ [last]) = true ->
  exists f s',
    receiver_loop (ext := ext) (received (first :: mids ++ [last]) ++ evs) s
      = receiver_loop (ext := ext) evs s' /\
    delivered (trace_ (rd s')) = delivered (trace_ (rd s)) ++ [Some f] /\
    (recv_hook_ (rd s) = None -> framesOut_ (rd s') = framesOut_ (rd s) ++ [Some f]) /\
    (forall hk, recv_hook_ (rd s) = Some hk -> framesOut_ (rd s') = framesOut_ (rd s)) /\
    payload_bytes f
      = hevc.nal_header (rtp_payload first)
        ++ concat (map fu_data (first :: mids ++ [last])) /\
    payload_len f = Z.of_nat (length (payload_bytes f)) /\
    fu s' = [] /\ active (rd s') = true /\
    recv_buffer_ (rd s')
      = recv_all (recv_buffer_ (rd s)) (first :: mids ++ [last]).
Proof.
  intros Ha Hs Hm He Hc.
  rewrite consecutive_app in Hc. apply andb_true_iff in Hc. destruct Hc as [Hc Hlast].
  unfold received. simpl map. rewrite map_app. simpl map.
  rewrite <- app_comm_cons, <- app_assoc. simpl app.
  destruct (loop_fu_start first
              (map (fun d => RecvData d true) mids ++ RecvData last true :: evs) s Ha Hs)
    as (s1 & Hl1 & Hq1 & Hfu1 & Hb1).
  rewrite Hl1.
  assert (Ha1 : active (rd s1) = true) by (destruct Hq1 as (E & _); now rewrite E).
  destruct (loop_fu_middles mids (RecvData last true :: evs) s1 (frame_of_datagram first))
    as (s2 & prev & Hl2 & Hq2 & Hfu2 & Hls2 & Hsq2 & Hb2);
    [exact Ha1 | exact Hm | now rewrite Hfu1 | exact Hc |].
  unfold received in Hl2. rewrite Hl2.
  assert (Ha2 : active (rd s2) = true) by (destruct Hq2 as (E & _); now rewrite E).
  destruct (loop_fu_end last evs s2 prev Ha2 He Hls2)
    as (s3 & Hl3 & Hfu3 & Ha3 & Hb3 & Hres).
  assert (Hbuf : recv_buffer_ (rd s3)
                 = recv_all (recv_buffer_ (rd s)) (first :: mids ++ [last])).
  { rewrite Hb3, Hb2, Hb1. unfold recv_all. simpl fold_left.
    now rewrite fold_left_app. }
  rewrite Hsq2 in Hres.
  change (seq (frame_of_datagram first)) with (datagram_seq first) in Hres.
  rewrite Hlast in Hres. cbv zeta in Hres. destruct Hres as (Hdel & Hqueue & Hhook).
  pose proof (nothing_delivered_trans _ _ _ Hq1 Hq2) as (_ & Hfo & _ & Hhk & _ & Hd).
  assert (Hfrags : fu s2 ++ [frame_of_datagram last]
                   = map frame_of_datagram (first :: mids ++ [last])).
  { rewrite Hfu2, Hfu1. simpl. now rewrite map_app. }
  rewrite Hfrags in Hdel, Hqueue.
  eexists. exists s3. split; [exact Hl3|].
  split; [now rewrite Hdel, Hd|].
  split; [intros Hr; rewrite Hqueue, Hfo; [reflexivity | now rewrite Hhk]|].
  split; [intros hk Hr; rewrite (Hhook hk), Hfo; [reflexivity | now rewrite Hhk]|].
  destruct (payload_bytes_completed
              (map frame_of_datagram (first :: mids ++ [last]))
              (frame_of_datagram last)) as [Hpb Hpl].
  split; [rewrite Hpb; apply reassembled_datagrams|].
  split; [now rewrite Hpl, Hpb|].
  split; [exact Hfu3|]. split; [exact Ha3 | exact Hbuf].
Qed.

Lemma fu_train_gap (first : list Z) (mids : list (list Z)) (last : list Z)
  (evs : list recv_result) (s : loop_state) :
  active (rd s) = true ->
  is_fu_start h first = true ->
  forallb (is_fu_middle h) mids = true ->
  is_fu_end h last = true ->
  consecutive (datagram_seq first) mids = true ->
  datagram_seq last <> (last_seq (datagram_seq first) mids + 1) mod 65536 ->
  exists s',
    receiver_loop (ext := ext) (received (first :: mids ++ [last]) ++ evs) s
      = receiver_loop (ext := ext) evs s' /\
    nothing_delivered (rd s) (rd s') /\ fu s' = [] /\ active (rd s') = true /\
    recv_buffer_ (rd s')
      = recv_all (recv_buffer_ (rd s)) (first :: mids ++ [last]).
Proof.
  intros Ha Hs Hm He Hc Hgap.
  unfold received. simpl map. rewrite map_app. simpl map.
  rewrite <- app_comm_cons, <- app_assoc. simpl app.
  destruct (loop_fu_start first
              (map (fun d => RecvData d true) mids ++ RecvData last true :: evs) s Ha Hs)
    as (s1 & Hl1 & Hq1 & Hfu1 & Hb1).
  rewrite Hl1.
  assert (Ha1 : active (rd s1) = true) by (destruct Hq1 as (E & _); now rewrite E).
  destruct (loop_fu_middles mids (RecvData last true :: evs) s1 (frame_of_datagram first))
    as (s2 & prev & Hl2 & Hq2 & Hfu2 & Hls2 & Hsq2 & Hb2);
    [exact Ha1 | exact Hm | now rewrite Hfu1 | exact Hc |].
  unfold received in Hl2. rewrite Hl2.
  assert (Ha2 : active (rd s2) = true) by (destruct Hq2 as (E & _); now rewrite E).
  destruct (loop_fu_end last evs s2 prev Ha2 He Hls2)
    as (s3 & Hl3 & Hfu3 & Ha3 & Hb3 & Hres).
  assert (Hbuf : recv_buffer_ (rd s3)
                 = recv_all (recv_buffer_ (rd s)) (first :: mids ++ [last])).
  { rewrite Hb3, Hb2, Hb1. unfold recv_all. simpl fold_left.
    now rewrite fold_left_app. }
  rewrite Hsq2 in Hres.
  change (seq (frame_of_datagram first)) with (datagram_seq first) in Hres.
  apply Z.eqb_neq in Hgap. rewrite Hgap in Hres.
  exists s3. split; [exact Hl3|].
  split; [|split; [exact Hfu3 | split; [exact Ha3 | exact Hbuf]]].
  eapply nothing_delivered_trans; [|exact Hres].
  eapply nothing_delivered_trans; eassumption.
Qed.

Lemma recv_all_length (buf : list Z) (dgrams : list (list Z)) :
  Forall (fun d => (length d <= length buf)%nat) dgrams ->
  length (recv_all buf dgrams) = length buf.
Proof.
  unfold recv_all. revert buf.
  induction dgrams as [|d ds IH]; intros buf Hfit; [reflexivity|].
  inversion Hfit as [|d' ds' Hd Hds]; subst. simpl fold_left.
  rewrite IH; [now apply recv_into_length|].
  rewrite recv_into_length by exact Hd. exact Hds.
Qed.

Lemma frag_lengths :
  length (frag_100 h) = 16%nat /\ length (frag_101 h) = 16%nat /\
  length (frag_102 h) = 16%nat /\ length (frag_103 h) = 16%nat.
Proof. repeat split; reflexivity. Qed.

Lemma fu_packet_is_fu (sn fuh : Z) (bytes : list Z) :
  0 <= h < 128 -> is_fu h (fu_packet h sn fuh bytes) = true.
Proof.
  intros Hh. unfold is_fu. apply andb_true_iff. split; [apply andb_true_iff; split|].
  - apply Z.ltb_lt. unfold fu_packet, rtp_header. rewrite !length_app. simpl length. lia.
  - apply Z.eqb_eq. unfold datagram_ptype, fu_packet, rtp_header. simpl nth.
    change 127 with (Z.ones 7). rewrite Z.land_ones by lia.
    apply Z.mod_small. simpl. lia.
  - reflexivity.
Qed.

(** C1.  With the HEVC handler of the spec, for datagrams that fit the
    receive buffer: a train of fragmentation units made of a START fragment,
    any number of middle fragments and an END fragment, with consecutive
    16-bit sequence numbers, makes the loop deliver exactly one frame, whose
    payload is the reconstructed NAL header followed by the bytes of the
    fragments in order, each without its FU header byte; nothing is left in
    the fragment vector and the receive buffer keeps its length.  When the
    END fragment does not carry the successor of the sequence number before
    it, nothing is delivered and the fragments are discarded.  In particular
    fragments 100 (START, AA), 101 (BB), 102 (END, CC), of 16 bytes each,
    give one frame with payload NAL header, AA, BB, CC, and fragments 100,
    101, 103 give none. *)
Theorem fu_train_reassembled :
  (forall (first : list Z) (mids : list (list Z)) (last : list Z)
          (evs : list recv_result) (s : loop_state),
     active (rd s) = true ->
     Forall (fits_recv_buffer (rd s)) (first :: mids ++ [last]) ->
     is_fu_start h first = true ->
     forallb (is_fu_middle h) mids = true ->
     is_fu_end h last = true ->
     consecutive (datagram_seq first) (mids ++ [last]) = true ->
     exists f s',
       receiver_loop (ext := ext) (received (first :: mids ++ [last]) ++ evs) s
         = receiver_loop (ext := ext) evs s' /\
       delivered (trace_ (rd s')) = delivered (trace_ (rd s)) ++ [Some f] /\
       (recv_hook_ (rd s) = None ->
        framesOut_ (rd s') = framesOut_ (rd s) ++ [Some f]) /\
       (forall hk, recv_hook_ (rd s) = Some hk ->
        framesOut_ (rd s') = framesOut_ (rd s)) /\
       payload_bytes f
         = hevc.nal_header (rtp_payload first)
           ++ concat (map fu_data (first :: mids ++ [last])) /\
       payload_len f = Z.of_nat (length (payload_bytes f)) /\
       fu s' = [] /\ active (rd s') = true /\
       recv_buffer_ (rd s')
         = recv_all (recv_buffer_ (rd s)) (first :: mids ++ [last]) /\
       length (recv_buffer_ (rd s')) = length (recv_buffer_ (rd s))) /\
  (forall (first : list Z) (mids : list (list Z)) (last : list Z)
          (evs : list recv_result) (s : loop_state),
     active (rd s) = true ->
     Forall (fits_recv_buffer (rd s)) (first :: mids ++ [last]) ->
     is_fu_start h first = true ->
     forallb (is_fu_middle h) mids = true ->
     is_fu_end h last = true ->
     consecutive (datagram_seq first) mids = true ->
     datagram_seq last <> (last_seq (datagram_seq first) mids + 1) mod 65536 ->
     exists s',
       receiver_loop (ext := ext) (received (first :: mids ++ [last]) ++ evs) s
         = receiver_loop (ext := ext) evs s' /\
       nothing_delivered (rd s) (rd s') /\ fu s' = [] /\ active (rd s') = true /\
       recv_buffer_ (rd s')
         = recv_all (recv_buffer_ (rd s)) (first :: mids ++ [last]) /\
       length (recv_buffer_ (rd s')) = length (recv_buffer_ (rd s))) /\
  (0 <= h < 128 ->
   forall (r : reader) (err0 : rtp_error_t),
     active r = true ->
     (16 <= length (recv_buffer_ r))%nat ->
     (exists f s',
        frame_receiver (ext := ext) (received [frag_100 h; frag_101 h; frag_102 h]) r err0
          = LoopBlocked s' /\
        delivered (trace_ (rd s')) = delivered (trace_ r) ++ [Some f] /\
        payload_bytes f = hevc.nal_header (rtp_payload (frag_100 h)) ++ [170; 187; 204] /\
        hevc.nal_header (rtp_payload (frag_100 h)) = [2; 1] /\
        length (recv_buffer_ (rd s')) = length (recv_buffer_ r)) /\
     (exists s',
        frame_receiver (ext := ext) (received [frag_100 h; frag_101 h; frag_103 h]) r err0
          = LoopBlocked s' /\
        delivered (trace_ (rd s')) = delivered (trace_ r) /\
        length (recv_buffer_ (rd s')) = length (recv_buffer_ r))).
Proof.
  split; [|split].
  - intros first mids last evs s Ha Hfit Hs Hm He Hc.
    destruct (fu_train_complete first mids last evs s Ha Hs Hm He Hc)
      as (f & s' & H1 & H2 & H3 & H4 & H5 & H6 & H7 & H8 & H9).
    exists f, s'.
    split; [exact H1|]. split; [exact H2|]. split; [exact H3|].
    split; [exact H4|]. split; [exact H5|]. split; [exact H6|].
    split; [exact H7|]. split; [exact H8|]. split; [exact H9|].
    rewrite H9. apply recv_all_length. exact Hfit.
  - intros first mids last evs s Ha Hfit Hs Hm He Hc Hgap.
    destruct (fu_train_gap first mids last evs s Ha Hs Hm He Hc Hgap)
      as (s' & H1 & H2 & H3 & H4 & H5).
    exists s'.
    split; [exact H1|]. split; [exact H2|]. split; [exact H3|].
    split; [exact H4|]. split; [exact H5|].
    rewrite H5. apply recv_all_length. exact Hfit.
  - intros Hh r err0 Ha Hlen.
    assert (H100 : is_fu_start h (frag_100 h) = true)
      by (unfold is_fu_start, frag_100; now rewrite fu_packet_is_fu).
    assert (H101 : forallb (is_fu_middle h) [frag_101 h] = true)
      by (simpl; unfold is_fu_middle, frag_101; now rewrite fu_packet_is_fu).
    assert (H102 : is_fu_end h (frag_102 h) = true)
      by (unfold is_fu_end, frag_102; now rewrite fu_packet_is_fu).
    assert (H103 : is_fu_end h (frag_103 h) = true)
      by (unfold is_fu_end, frag_103; now rewrite fu_packet_is_fu).
    assert (Hstart : delivered (trace_ (rd (mk_loop (emit (EvLog INFO_receiver_starting) r)
                                                [] err0)))
                     = delivered (trace_ r))
      by apply (nothing_delivered_log INFO_receiver_starting r).
    destruct frag_lengths as (L100 & L101 & L102 & L103).
    unfold frame_receiver. split.
    + destruct (fu_train_complete (frag_100 h) [frag_101 h] (frag_102 h) []
                  (mk_loop (emit (EvLog INFO_receiver_starting) r) [] err0)
                  Ha H100 H101 H102 eq_refl)
        as (f & s' & Hl & Hd & _ & _ & Hp & _ & _ & Ha' & Hb).
      exists f, s'. rewrite app_nil_r in Hl.
      split; [rewrite <- (receiver_loop_nil ext s' Ha'); exact Hl|].
      split; [now rewrite Hd, Hstart|].
      split; [exact Hp|]. split; [reflexivity|].
      rewrite Hb. cbn [rd].
      change (recv_buffer_ (emit (EvLog INFO_receiver_starting) r))
        with (recv_buffer_ r).
      apply recv_all_length.
      repeat constructor; rewrite ?L100, ?L101, ?L102; exact Hlen.
    + destruct (fu_train_gap (frag_100 h) [frag_101 h] (frag_103 h) []
                  (mk_loop (emit (EvLog INFO_receiver_starting) r) [] err0)
                  Ha H100 H101 H103 eq_refl)
        as (s' & Hl & Hq & _ & Ha' & Hb); [discriminate|].
      exists s'. rewrite app_nil_r in Hl.
      split; [rewrite <- (receiver_loop_nil ext s' Ha'); exact Hl|].
      split; [destruct Hq as (_ & _ & _ & _ & _ & Hd); now rewrite Hd, Hstart|].
      rewrite Hb. cbn [rd].
      change (recv_buffer_ (emit (EvLog INFO_receiver_starting) r))
        with (recv_buffer_ r).
      apply recv_all_length.
      repeat constructor; rewrite ?L100, ?L101, ?L103; exact Hlen.
Qed.

End FragmentTrain.

(** ** The statements above on the example readers and datagrams *)

Lemma sample_labels : case_labels_distinct sample_externals.
Proof. repeat split; discriminate. Qed.

Lemma single_packet_payload_witness :
  exists f s',
    receive_one (ext := sample_externals) (RecvData one_byte_packet true)
      (mk_loop hooked_reader [] RTP_NOT_READY) = IterContinue s' /\
    delivered (trace_ (rd s')) = delivered (trace_ hooked_reader) ++ [Some f] /\
    (recv_hook_ hooked_reader = None ->
     framesOut_ (rd s') = framesOut_ hooked_reader ++ [Some f]) /\
    (forall hk, recv_hook_ hooked_reader = Some hk ->
       framesOut_ (rd s') = framesOut_ hooked_reader /\
       exists tr, trace_ (rd s') = tr ++ [EvHook hk (recv_hook_arg_ hooked_reader) (Some f)]) /\
    payload_bytes f = skipn 12 one_byte_packet /\
    payload_len f = Z.of_nat (length one_byte_packet) - 12 /\
    (forall i, (12 <= i < length one_byte_packet)%nat ->
       nth (i - 12) (payload_bytes f) 0 = nth i one_byte_packet 0) /\
    fu s' = [] /\ err s' = RTP_OK /\
    recv_buffer_ (rd s') = recv_into (recv_buffer_ hooked_reader) one_byte_packet /\
    length (recv_buffer_ (rd s')) = length (recv_buffer_ hooked_reader).
Proof.
  apply (single_packet_payload 0 97 96 false sample_labels one_byte_packet
           (mk_loop hooked_reader [] RTP_NOT_READY)).
  - reflexivity.
  - unfold fits_recv_buffer. simpl. lia.
  - left. reflexivity.
Defined.

Lemma fu_train_reassembled_witness :
  (exists f s',
     receiver_loop (ext := sample_externals)
       (received (frag_100 96 :: [frag_101 96] ++ [frag_102 96])
          ++ [RecvData one_byte_packet true])
       (mk_loop started_reader [sample_frame 9] RTP_OK)
       = receiver_loop (ext := sample_externals) [RecvData one_byte_packet true] s' /\
     delivered (trace_ (rd s')) = delivered (trace_ started_reader) ++ [Some f] /\
     payload_bytes f = [2; 1; 170; 187; 204] /\
     length (recv_buffer_ (rd s')) = length (recv_buffer_ started_reader)) /\
  (exists s',
     receiver_loop (ext := sample_externals)
       (received (frag_100 96 :: [frag_101 96] ++ [frag_103 96]) ++ [])
       (mk_loop started_reader [] RTP_OK)
       = receiver_loop (ext := sample_externals) [] s' /\
     nothing_delivered started_reader (rd s') /\ fu s' = [] /\
     length (recv_buffer_ (rd s')) = length (recv_buffer_ started_reader)) /\
  (exists f s',
     frame_receiver (ext := sample_externals)
       (received [frag_100 96; frag_101 96; frag_102 96]) started_reader RTP_OK
       = LoopBlocked s' /\
     delivered (trace_ (rd s')) = delivered (trace_ started_reader) ++ [Some f] /\
     payload_bytes f = [2; 1; 170; 187; 204] /\
     length (recv_buffer_ (rd s')) = length (recv_buffer_ started_reader)) /\
  (exists s',
     frame_receiver (ext := sample_externals)
       (received [frag_100 96; frag_101 96; frag_103 96]) started_reader RTP_OK
       = LoopBlocked s' /\
     delivered (trace_ (rd s')) = delivered (trace_ started_reader) /\
     length (recv_buffer_ (rd s')) = length (recv_buffer_ started_reader)).
Proof.
  destruct (fu_train_reassembled 0 97 96 false sample_labels) as (T1 & T2 & T3).
  assert (Hfit : forall d, length d = 16%nat -> fits_recv_buffer started_reader d).
  { intros d Hd. unfold fits_recv_buffer. rewrite Hd. simpl. lia. }
  split; [|split].
  - destruct (T1 (frag_100 96) [frag_101 96] (frag_102 96)
                [RecvData one_byte_packet true]
                (mk_loop started_reader [sample_frame 9] RTP_OK))
      as (f & s' & H1 & H2 & _ & _ & H5 & _ & _ & _ & _ & H10); try reflexivity.
    + repeat constructor; apply Hfit; reflexivity.
    + exists f, s'. split; [exact H1|]. split; [exact H2|].
      split; [exact H5 | exact H10].
  - destruct (T2 (frag_100 96) [frag_101 96] (frag_103 96) []
                (mk_loop started_reader [] RTP_OK))
      as (s' & H1 & H2 & H3 & _ & _ & H6); try reflexivity.
    + repeat constructor; apply Hfit; reflexivity.
    + vm_compute. discriminate.
    + exists s'. split; [exact H1|]. split; [exact H2|].
      split; [exact H3 | exact H6].
  - assert (Hh : 0 <= 96 < 128) by lia.
    assert (Hlen : (16 <= length (recv_buffer_ started_reader))%nat)
      by (simpl; lia).
    destruct (T3 Hh started_reader RTP_OK eq_refl Hlen)
      as ((f & s' & H1 & H2 & H3 & _ & H3') & (s'' & H4 & H5 & H6)).
    split.
    + exists f, s'. split; [exact H1|]. split; [exact H2|].
      split; [exact H3 | exact H3'].
    + exists s''. split; [exact H4|]. split; [exact H5 | exact H6].
Defined.

(** C8.  The two writes to the queue at the input where they differ.  The
    receive loop, in queue mode, gets one Generic datagram: its
    [push_back] happens while the mutex is not locked.  The consumer then
    pulls the frame: its [erase] happens with the mutex locked, and the
    mutex is released again afterwards. *)
Theorem enqueue_without_lock :
  unlocked_writes
    (trace_ (rd (loop_final
       (frame_receiver (ext := sample_externals)
          [RecvData one_byte_packet true] started_reader RTP_OK))))
    = [QPushBack (Some one_byte_frame)] /\
  trace_ (add_outgoing_frame (Some one_byte_frame) started_reader)
    = trace_ started_reader ++ [EvQueueWrite (QPushBack (Some one_byte_frame)) false] /\
  exists r',
    pull_frame quiet (add_outgoing_frame (Some one_byte_frame) started_reader)
      = PullReturned (Some one_byte_frame) r' /\
    trace_ r' = trace_ started_reader
                  ++ [EvQueueWrite (QPushBack (Some one_byte_frame)) false;
                      EvQueueWrite QEraseBegin true] /\
    frames_mtx_ r' = false.
Proof.
  split; [vm_compute; reflexivity|]. split; [reflexivity|].
  eexists. split; [vm_compute; reflexivity|]. split; reflexivity.
Qed.

(** * Further properties of the reader *)

(** ** The receive loop, for arbitrary format handlers *)

Lemma hook_calls_app (t1 t2 : list event) :
  hook_calls (t1 ++ t2) = hook_calls t1 ++ hook_calls t2.
Proof.
  induction t1 as [|e t1 IH]; simpl; [reflexivity|].
  destruct e; simpl; try assumption. now rewrite IH.
Qed.

Lemma same_calls_refl (r : reader) : same_calls r r.
Proof. split; [apply nothing_delivered_refl | reflexivity]. Qed.

Lemma same_calls_trans (r1 r2 r3 : reader) :
  same_calls r1 r2 -> same_calls r2 r3 -> same_calls r1 r3.
Proof.
  intros [A1 A2] [B1 B2]. split.
  - eapply nothing_delivered_trans; eassumption.
  - congruence.
Qed.

Lemma same_calls_log (m : log_msg) (r : reader) : same_calls r (emit (EvLog m) r).
Proof.
  split; [apply nothing_delivered_log|].
  simpl. rewrite hook_calls_app. simpl. apply app_nil_r.
Qed.

Lemma same_calls_recv_buffer (buf : list Z) (r : reader) :
  same_calls r (set_recv_buffer buf r).
Proof. split; [apply nothing_delivered_recv_buffer | reflexivity]. Qed.

Lemma same_calls_delivers (r r' : reader) :
  same_calls r r' -> delivers r r' [].
Proof.
  intros [(A1 & A2 & A3 & A4 & A5 & A6) B]. unfold delivers.
  rewrite !app_nil_r. simpl. rewrite !app_nil_r. repeat split; auto.
Qed.

Lemma delivers_trans (r1 r2 r3 : reader) (n1 n2 : list frame_ptr) :
  delivers r1 r2 n1 -> delivers r2 r3 n2 -> delivers r1 r3 (n1 ++ n2).
Proof.
  intros (A1 & A2 & A3 & A4 & A5 & A6 & A7) (B1 & B2 & B3 & B4 & B5 & B6 & B7).
  unfold delivers. rewrite A2, A3 in *.
  split; [congruence|]. split; [congruence|]. split; [congruence|].
  split; [congruence|]. split; [now rewrite B5, A5, app_assoc|]. split.
  - intros Hr. destruct (A6 Hr) as [Q1 Q2]. destruct (B6 Hr) as [Q3 Q4].
    split; [now rewrite Q3, Q1, app_assoc | congruence].
  - intros h Hr. destruct (A7 h Hr) as [Q1 Q2]. destruct (B7 h Hr) as [Q3 Q4].
    split; [congruence|]. now rewrite Q4, Q2, map_app, app_assoc.
Qed.

Section LoopFacts.
Context {ext : Externals}.

Lemma same_calls_report (code : Z) (r : reader) :
  same_calls r (report_recv_error code r).
Proof.
  unfold report_recv_error.
  destruct win32; [destruct (negb (code =? WSAEWOULDBLOCK))|];
    try apply same_calls_refl;
    (split; [repeat split|]; simpl;
     rewrite ?delivered_app, ?hook_calls_app; simpl; apply app_nil_r).
Qed.

Lemma dispatch_same_calls (frame : rtp_frame) (s s' : loop_state) (f : frame_ptr) :
  dispatch frame s = (f, s') -> same_calls (rd s) (rd s').
Proof.
  unfold dispatch.
  destruct (ptype frame =? RTP_FORMAT_OPUS);
    [|destruct (ptype frame =? RTP_FORMAT_HEVC);
      [|destruct (ptype frame =? RTP_FORMAT_GENERIC)]].
  - destruct (process_opus_frame frame (fu s) (err s)) as [[f1 fu1] e1].
    intros [= _ <-]. apply same_calls_refl.
  - destruct (process_hevc_frame frame (fu s) (err s)) as [[f1 fu1] e1].
    intros [= _ <-]. apply same_calls_refl.
  - destruct (process_generic_frame frame (fu s) (err s)) as [[f1 fu1] e1].
    intros [= _ <-]. apply same_calls_refl.
  - intros [= _ <-]. apply same_calls_log.
Qed.

(** The final test of an iteration delivers at most the frame at hand: to
    the hook when one is installed and else, unless it is null, to the
    queue. *)
Lemma hand_over_delivers_at_most (frame : frame_ptr) (e : rtp_error_t) (r : reader) :
  exists new,
    (new = [] \/ new = [frame]) /\ delivers r (hand_over frame e r) new.
Proof.
  destruct e;
    try (exists []; split; [now left|];
         apply same_calls_delivers, same_calls_log).
  unfold hand_over, recv_hook_installed, recv_hook, delivers. simpl.
  destruct (recv_hook_ r) as [h|] eqn:Hr; simpl.
  - exists [frame]. split; [now right|].
    repeat apply conj; try reflexivity; try exact Hr.
    + rewrite !delivered_app. simpl. now rewrite app_nil_r.
    + discriminate.
    + intros h' [= <-]. split; [reflexivity|].
      rewrite !hook_calls_app. simpl. now rewrite app_nil_r.
  - destruct frame as [f|]; simpl.
    + exists [Some f]. split; [now right|].
      repeat apply conj; try reflexivity; try exact Hr; try discriminate.
      * rewrite !delivered_app. simpl. now rewrite app_nil_r.
      * intros _. split; [reflexivity|].
        rewrite !hook_calls_app. simpl. now rewrite !app_nil_r.
    + exists []. split; [now left|]. rewrite !app_nil_r.
      repeat apply conj; try reflexivity; try exact Hr; try discriminate.
      * rewrite delivered_app. simpl. now rewrite app_nil_r.
      * intros _. split; [reflexivity|].
        rewrite hook_calls_app. simpl. now rewrite app_nil_r.
Qed.

(** One iteration: it returns exactly on a failure of [recvfrom], and hands
    over at most one frame, none when no datagram came. *)
Lemma receive_one_summary (ev : recv_result) (s : loop_state) :
  exists s' new,
    receive_one ev s = (if is_recv_fail ev then IterReturn s' else IterContinue s') /\
    (length new <= (if is_recv_fail ev then 0 else 1))%nat /\
    delivers (rd s) (rd s') new.
Proof.
  destruct ev as [code|dgram alloc_ok]; simpl.
  - eexists. exists []. split; [reflexivity|]. split; [simpl; lia|].
    apply same_calls_delivers, same_calls_report.
  - unfold receive_one.
    set (r1 := emit _ (set_recv_buffer _ (rd s))).
    assert (H1 : same_calls (rd s) r1).
    { eapply same_calls_trans; [apply same_calls_recv_buffer | apply same_calls_log]. }
    destruct (alloc_frame alloc_ok _ _) as [frame0|].
    + destruct (_ <=? 0).
      * eexists. exists []. split; [reflexivity|]. split; [simpl; lia|].
        apply same_calls_delivers.
        eapply same_calls_trans; [exact H1 | apply same_calls_log].
      * match goal with |- context [dispatch ?f ?st] =>
          destruct (dispatch f st) as [f3 s1] eqn:Hd end.
        apply dispatch_same_calls in Hd. simpl in Hd.
        destruct (hand_over_delivers_at_most f3 (err s1) (rd s1)) as (new & Hn & Hdel).
        eexists. exists new. split; [reflexivity|]. split.
        -- destruct Hn as [->| ->]; simpl; lia.
        -- change new with ([] ++ new). eapply delivers_trans; [|exact Hdel].
           apply same_calls_delivers. eapply same_calls_trans; eassumption.
    + eexists. exists []. split; [reflexivity|]. split; [simpl; lia|].
      apply same_calls_delivers.
      eapply same_calls_trans; [exact H1 | apply same_calls_log].
Qed.

(** The whole loop on an active reader: it ends in a return when some
    [recvfrom] fails and is back in [recvfrom] otherwise; it hands over at
    most one frame per datagram. *)
Lemma receiver_loop_summary (evs : list recv_result) (s : loop_state) :
  active (rd s) = true ->
  exists s' new,
    receiver_loop evs s
      = (if existsb is_recv_fail evs then LoopReturned s' else LoopBlocked s') /\
    (length new <= datagrams evs)%nat /\
    delivers (rd s) (rd s') new.
Proof.
  revert s. induction evs as [|ev evs IH]; intros s Ha.
  - exists s, []. simpl. rewrite Ha. split; [reflexivity|]. split; [lia|].
    apply same_calls_delivers, same_calls_refl.
  - destruct (receive_one_summary ev s) as (s1 & n1 & H1 & L1 & D1).
    simpl receiver_loop. rewrite Ha, H1. unfold datagrams. simpl.
    destruct (is_recv_fail ev); simpl.
    + exists s1, n1. split; [reflexivity|]. split; [lia | exact D1].
    + destruct (IH s1) as (s2 & n2 & H2 & L2 & D2).
      { destruct D1 as (E & _). now rewrite E. }
      exists s2, (n1 ++ n2). split; [exact H2|]. split.
      * rewrite length_app. unfold datagrams in L2. lia.
      * eapply delivers_trans; eassumption.
Qed.

(** X1.  Whatever it receives and whatever the format handlers do, the
    receive loop never changes the active flag, the installed hook, its
    argument or the state of the queue mutex. *)
Theorem receiver_loop_keeps_setup (evs : list recv_result) (s : loop_state) :
  active (rd (loop_final (receiver_loop evs s))) = active (rd s) /\
  recv_hook_ (rd (loop_final (receiver_loop evs s))) = recv_hook_ (rd s) /\
  recv_hook_arg_ (rd (loop_final (receiver_loop evs s))) = recv_hook_arg_ (rd s) /\
  frames_mtx_ (rd (loop_final (receiver_loop evs s))) = frames_mtx_ (rd s).
Proof.
  destruct (active (rd s)) eqn:Ha.
  - destruct (receiver_loop_summary evs s Ha) as (s' & new & H & _ & D).
    rewrite H. destruct D as (D1 & D2 & D3 & D4 & _).
    destruct (existsb is_recv_fail evs); simpl; rewrite D1, D2, D3, D4; now rewrite Ha.
  - destruct evs; simpl; unfold active in *; rewrite Ha; simpl; now repeat split.
Qed.

(** X2.  On an active reader the loop ends only by a failure of [recvfrom]:
    when one occurs the function returns, and when none occurs the thread is
    back in [recvfrom] after the last datagram, whatever the datagrams hold
    and whatever the handlers answer.  It never leaves through the test of
    the flag. *)
Theorem receiver_loop_ends_only_on_failure (evs : list recv_result) (s : loop_state) :
  active (rd s) = true ->
  receiver_loop evs s
    = if existsb is_recv_fail evs
      then LoopReturned (loop_final (receiver_loop evs s))
      else LoopBlocked (loop_final (receiver_loop evs s)).
Proof.
  intros Ha. destruct (receiver_loop_summary evs s Ha) as (s' & new & H & _).
  rewrite H. now destruct (existsb is_recv_fail evs).
Qed.

(** X3.  The loop hands over at most one frame per datagram received, and
    what it hands over is appended to what was handed over before. *)
Theorem at_most_one_frame_per_datagram (evs : list recv_result) (s : loop_state) :
  exists new,
    delivered (trace_ (rd (loop_final (receiver_loop evs s))))
      = delivered (trace_ (rd s)) ++ new /\
    (length new <= datagrams evs)%nat.
Proof.
  destruct (active (rd s)) eqn:Ha.
  - destruct (receiver_loop_summary evs s Ha) as (s' & new & H & L & D).
    exists new. rewrite H. destruct D as (_ & _ & _ & _ & D5 & _).
    split; [|exact L]. now destruct (existsb is_recv_fail evs).
  - exists []. split; [|simpl; lia].
    destruct evs; simpl; unfold active in *; rewrite Ha; simpl;
      rewrite delivered_app; simpl; now rewrite !app_nil_r.
Qed.

(** X4.  The two delivery modes exclude each other.  With a hook installed
    the loop never touches the queue, and every frame it delivers is one
    call of that hook with the installed argument; with no hook installed
    the hook is never called and the queue grows by exactly the frames
    delivered. *)
Theorem delivery_modes_exclusive (evs : list recv_result) (s : loop_state) :
  active (rd s) = true ->
  exists new,
    delivered (trace_ (rd (loop_final (receiver_loop evs s))))
      = delivered (trace_ (rd s)) ++ new /\
    (forall h, recv_hook_ (rd s) = Some h ->
       framesOut_ (rd (loop_final (receiver_loop evs s))) = framesOut_ (rd s) /\
       hook_calls (trace_ (rd (loop_final (receiver_loop evs s))))
         = hook_calls (trace_ (rd s))
           ++ map (fun f => (h, recv_hook_arg_ (rd s), f)) new) /\
    (recv_hook_ (rd s) = None ->
       framesOut_ (rd (loop_final (receiver_loop evs s))) = framesOut_ (rd s) ++ new /\
       hook_calls (trace_ (rd (loop_final (receiver_loop evs s))))
         = hook_calls (trace_ (rd s))).
Proof.
  intros Ha. destruct (receiver_loop_summary evs s Ha) as (s' & new & H & _ & D).
  exists new. rewrite H. destruct D as (_ & _ & _ & _ & D5 & D6 & D7).
  destruct (existsb is_recv_fail evs); simpl;
    (split; [exact D5|];
     split; [intros h Hh; exact (D7 h Hh) | intros Hn; exact (D6 Hn)]).
Qed.


End LoopFacts.

(** ** Building the frame *)

Lemma lor_shiftl_add (a b n : Z) :
  0 <= n -> 0 <= b < 2 ^ n -> Z.lor (Z.shiftl a n) b = a * 2 ^ n + b.
Proof.
  intros Hn Hb.
  assert (H : Z.land (Z.shiftl a n) b = 0).
  { apply Z.bits_inj'. intros k Hk. rewrite Z.land_spec, Z.bits_0.
    destruct (Z.lt_ge_cases k n) as [Hlt|Hge].
    - now rewrite Z.shiftl_spec_low.
    - destruct (Z.eq_dec b 0) as [->|Hnz];
        [rewrite Z.bits_0; apply andb_false_r|].
      rewrite (Z.bits_above_log2 b k); [apply andb_false_r | lia |].
      apply Z.lt_le_trans with n; [apply Z.log2_lt_pow2; lia | lia]. }
  rewrite <- Z.lxor_lor, <- Z.add_nocarry_lxor by exact H.
  now rewrite Z.shiftl_mul_pow2.
Qed.

Lemma byte_cases (P : Z -> bool) :
  forallb P (map Z.of_nat (List.seq 0 256)) = true ->
  forall b, 0 <= b < 256 -> P b = true.
Proof.
  intros H b Hb. rewrite forallb_forall in H. apply H.
  apply in_map_iff. exists (Z.to_nat b). split; [lia|]. apply in_seq. lia.
Qed.

Lemma marker_and_ptype (b : Z) :
  0 <= b < 256 ->
  128 * (if Z.land b 128 =? 0 then 0 else 1) + Z.land b 127 = b /\
  0 <= Z.land b 127 < 128.
Proof.
  intros Hb.
  pose proof (byte_cases
    (fun b => (128 * (if Z.land b 128 =? 0 then 0 else 1) + Z.land b 127 =? b)
              && (0 <=? Z.land b 127) && (Z.land b 127 <? 128))
    ltac:(vm_compute; reflexivity) b Hb) as H.
  cbv beta in H.
  apply andb_true_iff in H. destruct H as [H H3].
  apply andb_true_iff in H. destruct H as [H1 H2].
  apply Z.eqb_eq in H1. apply Z.leb_le in H2. apply Z.ltb_lt in H3. lia.
Qed.

Lemma ntohs_at_value (buf : list Z) (i : nat) :
  0 <= nth i buf 0 < 256 -> 0 <= nth (i + 1) buf 0 < 256 ->
  ntohs_at buf i = 256 * nth i buf 0 + nth (i + 1) buf 0.
Proof.
  intros H0 H1. unfold ntohs_at. rewrite lor_shiftl_add; lia.
Qed.

Lemma ntohl_at_value (buf : list Z) (i : nat) :
  0 <= nth i buf 0 < 256 -> 0 <= nth (i + 1) buf 0 < 256 ->
  0 <= nth (i + 2) buf 0 < 256 -> 0 <= nth (i + 3) buf 0 < 256 ->
  ntohl_at buf i
  = 16777216 * nth i buf 0 + 65536 * nth (i + 1) buf 0
    + 256 * nth (i + 2) buf 0 + nth (i + 3) buf 0.
Proof.
  intros H0 H1 H2 H3. unfold ntohl_at.
  rewrite (lor_shiftl_add (nth (i + 2) buf 0)) by lia.
  rewrite (lor_shiftl_add (nth (i + 1) buf 0)) by lia.
  rewrite lor_shiftl_add by lia. lia.
Qed.

(** X6.  The fixed RTP header is decoded as the wire format has it, for any
    buffer whose first twelve bytes are bytes: byte 1 splits without loss
    into the marker bit and a payload type below 128; the sequence number is
    bytes 2-3, the timestamp bytes 4-7 and the SSRC bytes 8-11, each read
    big-endian and within its 16 or 32 bits. *)
Theorem rtp_fields_decoded (inbuf : list Z) (f0 : rtp_frame) :
  header_bytes inbuf ->
  128 * marker (set_rtp_fields inbuf f0) + ptype (set_rtp_fields inbuf f0)
    = nth 1 inbuf 0 /\
  (marker (set_rtp_fields inbuf f0) = 0 \/ marker (set_rtp_fields inbuf f0) = 1) /\
  0 <= ptype (set_rtp_fields inbuf f0) < 128 /\
  seq (set_rtp_fields inbuf f0) = 256 * nth 2 inbuf 0 + nth 3 inbuf 0 /\
  0 <= seq (set_rtp_fields inbuf f0) < 65536 /\
  timestamp (set_rtp_fields inbuf f0)
    = 16777216 * nth 4 inbuf 0 + 65536 * nth 5 inbuf 0
      + 256 * nth 6 inbuf 0 + nth 7 inbuf 0 /\
  0 <= timestamp (set_rtp_fields inbuf f0) < 4294967296 /\
  ssrc (set_rtp_fields inbuf f0)
    = 16777216 * nth 8 inbuf 0 + 65536 * nth 9 inbuf 0
      + 256 * nth 10 inbuf 0 + nth 11 inbuf 0 /\
  0 <= ssrc (set_rtp_fields inbuf f0) < 4294967296.
Proof.
  intros Hb.
  assert (B : forall i, (i < 12)%nat -> 0 <= nth i inbuf 0 < 256) by exact Hb.
  pose proof (B 1%nat ltac:(lia)) as B1. pose proof (B 2%nat ltac:(lia)) as B2.
  pose proof (B 3%nat ltac:(lia)) as B3. pose proof (B 4%nat ltac:(lia)) as B4.
  pose proof (B 5%nat ltac:(lia)) as B5. pose proof (B 6%nat ltac:(lia)) as B6.
  pose proof (B 7%nat ltac:(lia)) as B7. pose proof (B 8%nat ltac:(lia)) as B8.
  pose proof (B 9%nat ltac:(lia)) as B9. pose proof (B 10%nat ltac:(lia)) as B10.
  pose proof (B 11%nat ltac:(lia)) as B11.
  destruct (marker_and_ptype _ B1) as [M P].
  cbn [marker ptype seq timestamp ssrc set_rtp_fields].
  rewrite (ntohs_at_value inbuf 2), (ntohl_at_value inbuf 4), (ntohl_at_value inbuf 8)
    by assumption.
  cbn [Nat.add].
  repeat apply conj; lia.
Qed.

Lemma rtp_fields_decoded_witness :
  header_bytes (fu_packet 96 100 129 [170]) /\
  seq (set_rtp_fields (fu_packet 96 100 129 [170]) one_byte_frame) = 100 /\
  ptype (set_rtp_fields (fu_packet 96 100 129 [170]) one_byte_frame) = 96.
Proof.
  assert (H : header_bytes (fu_packet 96 100 129 [170])).
  { intros i Hi. do 12 (destruct i as [|i]; [vm_compute; split; [discriminate | reflexivity]|]). lia. }
  split; [exact H|].
  destruct (rtp_fields_decoded (fu_packet 96 100 129 [170]) one_byte_frame H)
    as (_ & _ & _ & Hs & _).
  split; [rewrite Hs; reflexivity | reflexivity].
Defined.

(** X7.  Lines 177-198 on a datagram of more than 12 bytes that fits the
    receive buffer: each member they write is a function of the datagram
    alone, whatever the reused buffer held before and whatever
    [alloc_frame] left in the frame; the data are the datagram, the total
    length the length received, the payload the bytes after the first
    twelve.  The members they do not write ([header], [header_len],
    [data_len], [rtp_fmt], [frame_type]) stay as [alloc_frame] left them,
    and the receive buffer keeps its length. *)
Theorem frame_ignores_stale_buffer
  (buf dgram : list Z) (f0 : rtp_frame) :
  12 < Z.of_nat (length dgram) ->
  (length dgram <= length buf)%nat ->
  let f := set_rtp_data (recv_into buf dgram) (Z.of_nat (length dgram))
             (set_rtp_fields (recv_into buf dgram) f0) in
  (timestamp f = ntohl_at dgram 4 /\
   ssrc f = ntohl_at dgram 8 /\
   seq f = ntohs_at dgram 2 /\
   ptype f = Z.land (nth 1 dgram 0) 127 /\
   marker f = (if Z.land (nth 1 dgram 0) 128 =? 0 then 0 else 1)) /\
  (data f = dgram /\
   payload f = 12%nat /\
   payload_len f = Z.of_nat (length dgram) - 12 /\
   total_len f = Z.of_nat (length dgram) /\
   payload_bytes f = skipn 12 dgram) /\
  (header f = header f0 /\
   header_len f = header_len f0 /\
   data_len f = data_len f0 /\
   rtp_fmt f = rtp_fmt f0 /\
   frame_type f = frame_type f0) /\
  length (recv_into buf dgram) = length buf.
Proof.
  intros Hlen Hfit f. subst f.
  unfold set_rtp_data, set_rtp_fields, payload_bytes, ntohl_at, ntohs_at,
    RTP_HEADER_SIZE.
  cbn [timestamp ssrc seq ptype marker header header_len data data_len
       payload payload_len total_len rtp_fmt frame_type].
  rewrite firstn_recv_into. rewrite !nth_recv_into by lia.
  split; [repeat split|]. split; [|split; [repeat split|]].
  - split; [reflexivity|]. split; [reflexivity|]. split; [reflexivity|].
    split; [reflexivity|].
    change (Z.to_nat 12) with 12%nat.
    apply firstn_all2. rewrite length_skipn. lia.
  - now apply recv_into_length.
Qed.

Lemma frame_ignores_stale_buffer_witness :
  data (set_rtp_data (recv_into (repeat 255 20%nat) one_byte_packet) 13
          (set_rtp_fields (recv_into (repeat 255 20%nat) one_byte_packet)
             (sample_frame 4))) = one_byte_packet /\
  payload_bytes
    (set_rtp_data (recv_into (repeat 255 20%nat) one_byte_packet) 13
       (set_rtp_fields (recv_into (repeat 255 20%nat) one_byte_packet)
          (sample_frame 4))) = [171] /\
  header (set_rtp_data (recv_into (repeat 255 20%nat) one_byte_packet) 13
            (set_rtp_fields (recv_into (repeat 255 20%nat) one_byte_packet)
               (sample_frame 4))) = header (sample_frame 4) /\
  length (recv_into (repeat 255 20%nat) one_byte_packet) = 20%nat.
Proof.
  assert (H1 : 12 < Z.of_nat (length one_byte_packet)) by (simpl; lia).
  assert (H2 : (length one_byte_packet <= length (repeat 255 20%nat))%nat)
    by (simpl; lia).
  destruct (frame_ignores_stale_buffer (repeat 255 20%nat) one_byte_packet
              (sample_frame 4) H1 H2)
    as (_ & (Hd & _ & _ & _ & Hp) & (Hh & _) & Hl).
  split; [exact Hd|]. split; [exact Hp|]. split; [exact Hh | exact Hl].
Defined.

(** X8.  [INVALID_FRAME_TYPE] rejects exactly the numbers that are not the
    value of an enumerator of [frame_type_t]. *)
Theorem invalid_frame_type_iff (ft : Z) :
  INVALID_FRAME_TYPE ft = false <-> exists t, frame_type_value t = ft.
Proof.
  unfold INVALID_FRAME_TYPE. simpl. split.
  - intros H. apply orb_false_iff in H. destruct H as [H1 H2].
    apply Z.ltb_ge in H1. rewrite Z.gtb_ltb in H2. apply Z.ltb_ge in H2.
    assert (C : ft = 0 \/ ft = 1 \/ ft = 2) by lia.
    destruct C as [->|[->| ->]];
      [exists FRAME_TYPE_GENERIC | exists FRAME_TYPE_OPUS | exists FRAME_TYPE_HEVC_FU];
      reflexivity.
  - intros [t <-]. now destruct t.
Qed.

(** ** The consumer side *)

Lemma env_step_mtx (a : env_action) (r : reader) :
  frames_mtx_ (env_step a r) = frames_mtx_ r.
Proof. destruct a as [f|]; simpl; [apply add_outgoing_frame_mtx | reflexivity]. Qed.

Lemma env_run_mtx (acts : list env_action) (r : reader) :
  frames_mtx_ (env_run acts r) = frames_mtx_ r.
Proof.
  revert r. induction acts as [|a acts IH]; intros r; simpl; [reflexivity|].
  unfold env_run in IH. now rewrite IH, env_step_mtx.
Qed.

Lemma env_enqueued_no_null (acts : list env_action) : ~ In None (env_enqueued acts).
Proof.
  induction acts as [|[[f|]|] acts IH]; simpl; try exact IH; [tauto|].
  intros [H|H]; [discriminate | now apply IH].
Qed.

Lemma env_enqueued_app (a1 a2 : list env_action) :
  env_enqueued (a1 ++ a2) = env_enqueued a1 ++ env_enqueued a2.
Proof.
  induction a1 as [|[[f|]|] a1 IH]; simpl; try exact IH; [reflexivity|].
  now rewrite IH.
Qed.

Lemma env_run_framesOut (acts : list env_action) (r : reader) :
  framesOut_ (env_run acts r) = framesOut_ r ++ env_enqueued acts.
Proof.
  revert r. induction acts as [|a acts IH]; intros r; simpl.
  - now rewrite app_nil_r.
  - unfold env_run in IH. rewrite IH.
    destruct a as [[f|]|]; simpl; try reflexivity. now rewrite <- app_assoc.
Qed.

(** The waiting loop of [pull_frame]: it keeps the mutex as it is, the queue
    only grows by what the other threads enqueue, and while it still waits
    the queue is empty and the reader active. *)
Lemma pull_wait_summary (sl : list (list env_action)) (r : reader) :
  exists acts,
    match pull_wait sl r with
    | StillWaiting r1 =>
        framesOut_ r1 = [] /\ active r1 = true /\
        frames_mtx_ r1 = frames_mtx_ r /\
        framesOut_ r1 = framesOut_ r ++ env_enqueued acts
    | WaitOver r1 =>
        frames_mtx_ r1 = frames_mtx_ r /\
        framesOut_ r1 = framesOut_ r ++ env_enqueued acts
    end.
Proof.
  revert r. induction sl as [|acts sl IH]; intros r; simpl.
  - exists []. simpl. rewrite app_nil_r.
    destruct (framesOut_ r) eqn:Hq; simpl; [|now split].
    destruct (active r) eqn:Ha; [|now split]. now repeat split.
  - destruct (framesOut_ r) as [|x q] eqn:Hq; simpl.
    + destruct (active r) eqn:Ha.
      * destruct (IH (env_run acts (emit (EvSleep 20) r))) as [more H].
        exists (acts ++ more). rewrite env_enqueued_app.
        rewrite env_run_framesOut, env_run_mtx in H. simpl in H. rewrite Hq in H.
        exact H.
      * exists []. simpl. now rewrite Hq.
    + exists []. simpl. rewrite app_nil_r. now rewrite Hq.
Qed.

(** X9.  When nobody else holds the queue mutex, a call of [pull_frame]
    either is still waiting, with the queue empty and the reader active, or
    has returned; it is never stuck on the mutex, never takes the front of
    an empty queue, and has released the mutex in every case. *)
Theorem pull_frame_progress (sch : schedule) (r : reader) :
  frames_mtx_ r = false ->
  match pull_frame sch r with
  | PullWaiting r' =>
      framesOut_ r' = [] /\ active r' = true /\ frames_mtx_ r' = false
  | PullReturned _ r' => frames_mtx_ r' = false
  | PullBlockedOnMutex _ => False
  | PullUndefined _ => False
  end.
Proof.
  intros Hm.
  pose proof (pull_frame_never_undefined sch r) as Hu.
  unfold pull_frame in *.
  destruct (pull_wait_summary (sleeps sch) r) as [acts Hw].
  destruct (pull_wait (sleeps sch) r) as [r1|r1].
  - destruct Hw as (H1 & H2 & H3 & _). rewrite H3. now repeat split.
  - destruct Hw as (H3 & _).
    destruct (negb (active (env_run (before_check sch) r1))).
    + now rewrite env_run_mtx, H3.
    + rewrite !env_run_mtx, H3, Hm in *. simpl in *.
      destruct (framesOut_ (env_run (before_lock sch) (env_run (before_check sch) r1))).
      * now apply (Hu (set_frames_mtx true
                         (env_run (before_lock sch) (env_run (before_check sch) r1)))).
      * reflexivity.
Qed.

Lemma pull_frame_progress_witness :
  match pull_frame (mk_schedule [[]; [EnvEnqueue (Some (sample_frame 1))]] [] [])
          started_reader with
  | PullWaiting r' =>
      framesOut_ r' = [] /\ active r' = true /\ frames_mtx_ r' = false
  | PullReturned _ r' => frames_mtx_ r' = false
  | PullBlockedOnMutex _ => False
  | PullUndefined _ => False
  end.
Proof.
  apply (pull_frame_progress
           (mk_schedule [[]; [EnvEnqueue (Some (sample_frame 1))]] [] [])
           started_reader).
  reflexivity.
Defined.






(** X11.  Successive calls of [add_outgoing_frame] put on the queue exactly
    the non-null pointers they were given, in the order of the calls. *)
Theorem enqueue_all_keeps_non_null (ptrs : list frame_ptr) (r : reader) :
  framesOut_ (enqueue_all ptrs r)
    = framesOut_ r ++ filter (fun p => negb (is_null p)) ptrs /\
  active (enqueue_all ptrs r) = active r /\
  recv_hook_ (enqueue_all ptrs r) = recv_hook_ r.
Proof.
  revert r. induction ptrs as [|p ptrs IH]; intros r; simpl.
  - now rewrite app_nil_r.
  - destruct (IH (add_outgoing_frame p r)) as (H1 & H2 & H3).
    unfold enqueue_all in *. rewrite H1, H2, H3.
    destruct p as [f|]; simpl; [|now repeat split].
    rewrite <- app_assoc. now repeat split.
Qed.

(** ** Installing hooks *)

(** X12.  After any sequence of calls of [install_recv_hook] the hook in
    effect and its argument are those of the last call that passed a
    function; calls with a null function leave them alone.  A hook, once
    installed, is never removed.  The queue, the active flag and the frames
    delivered so far are untouched. *)
Theorem install_all_last_wins (calls : list (Z * option hook_t)) (r : reader) :
  (recv_hook_arg_ (install_all calls r), recv_hook_ (install_all calls r))
    = last_install calls (recv_hook_arg_ r, recv_hook_ r) /\
  recv_hook_installed (install_all calls r)
    = recv_hook_installed r || existsb passes_function calls /\
  framesOut_ (install_all calls r) = framesOut_ r /\
  active (install_all calls r) = active r /\
  delivered (trace_ (install_all calls r)) = delivered (trace_ r).
Proof.
  revert r. induction calls as [|[a [h|]] calls IH]; intros r.
  - simpl. rewrite orb_false_r. now repeat split.
  - destruct (IH (install_recv_hook a (Some h) r)) as (H1 & H2 & H3 & H4 & H5).
    change (install_all ((a, Some h) :: calls) r)
      with (install_all calls (install_recv_hook a (Some h) r)).
    rewrite H1, H2, H3, H4, H5.
    simpl. rewrite orb_true_r. now repeat split.
  - destruct (IH (install_recv_hook a None r)) as (H1 & H2 & H3 & H4 & H5).
    change (install_all ((a, None) :: calls) r)
      with (install_all calls (install_recv_hook a None r)).
    rewrite H1, H2, H3, H4, H5.
    simpl. rewrite delivered_app. simpl. rewrite app_nil_r. now repeat split.
Qed.

(** ** Destruction *)

Lemma dealloc_all_spec (d : frame_ptr -> rtp_error_t) (frames : list frame_ptr) :
  dealloc_all d frames
  = (frames,
     filter (fun i => match d i with RTP_OK => false | _ => true end) frames).
Proof.
  induction frames as [|i frames IH]; [reflexivity|].
  simpl. rewrite IH. now destruct (d i).
Qed.

Lemma reader_delete_spec (d : frame_ptr -> rtp_error_t) (r : reader) :
  reader_delete d r
  = mk_destroyed (set_recv_buffer [] (set_active false r)) (framesOut_ r)
      (filter (fun i => match d i with RTP_OK => false | _ => true end) (framesOut_ r))
      (match recv_buffer_ r with [] => true | _ :: _ => false end).
Proof.
  unfold reader_delete. simpl.
  destruct (framesOut_ r) as [|i q] eqn:Hq; [reflexivity|].
  now rewrite dealloc_all_spec.
Qed.

Lemma pull_many_prefix (k : nat) (q : list frame_ptr) (r : reader) :
  active r = true -> frames_mtx_ r = false -> framesOut_ r = q ->
  (k <= length q)%nat ->
  fst (pull_many k r) = firstn k q /\
  framesOut_ (snd (pull_many k r)) = skipn k q.
Proof.
  revert q r. induction k as [|k IH]; intros q r Ha Hm Hq Hk; simpl.
  - now split.
  - destruct q as [|x q]; [simpl in Hk; lia|].
    rewrite (pull_frame_quiet_front r x q Ha Hm Hq).
    match goal with |- context [pull_many _ ?r1] =>
      destruct (IH q r1) as [H1 H2]; try reflexivity; try exact Ha;
      [simpl in Hk; lia|];
      destruct (pull_many k r1) as [fs r2] end.
    simpl in *. split; [now rewrite H1 | exact H2].
Qed.

(** X13.  Every frame put on the queue is freed at most once and none is
    lost: the frames the consumer has pulled are not touched by the
    destructor, and the destructor passes to [dealloc_frame] exactly the
    frames still queued, in order, logging an error for each one
    [dealloc_frame] does not accept. *)
Theorem reader_delete_frees_what_is_left
  (d : frame_ptr -> rtp_error_t) (r : reader) (fs : list rtp_frame) (k : nat) :
  active r = true -> frames_mtx_ r = false -> framesOut_ r = [] ->
  (k <= length fs)%nat ->
  fst (pull_many k (enqueue_all (map Some fs) r)) = map Some (firstn k fs) /\
  deallocated (reader_delete d (snd (pull_many k (enqueue_all (map Some fs) r))))
    = map Some (skipn k fs) /\
  dealloc_failed (reader_delete d (snd (pull_many k (enqueue_all (map Some fs) r))))
    = filter (fun i => match d i with RTP_OK => false | _ => true end)
        (map Some (skipn k fs)).
Proof.
  intros Ha Hm Hq Hk.
  destruct (pull_many_prefix k (map Some fs) (enqueue_all (map Some fs) r))
    as [H1 H2].
  - now rewrite enqueue_all_active.
  - now rewrite enqueue_all_mtx.
  - now rewrite enqueue_all_framesOut, Hq.
  - now rewrite length_map.
  - rewrite reader_delete_spec. simpl.
    rewrite H1, H2, firstn_map, skipn_map. now repeat split.
Qed.

Lemma reader_delete_frees_what_is_left_witness :
  fst (pull_many 1 (enqueue_all
         (map Some [sample_frame 1; sample_frame 2; sample_frame 3]) started_reader))
    = [Some (sample_frame 1)] /\
  deallocated (reader_delete sample_dealloc (snd (pull_many 1 (enqueue_all
         (map Some [sample_frame 1; sample_frame 2; sample_frame 3]) started_reader))))
    = [Some (sample_frame 2); Some (sample_frame 3)] /\
  dealloc_failed (reader_delete sample_dealloc (snd (pull_many 1 (enqueue_all
         (map Some [sample_frame 1; sample_frame 2; sample_frame 3]) started_reader))))
    = [Some (sample_frame 2)].
Proof.
  apply (reader_delete_frees_what_is_left sample_dealloc started_reader
           [sample_frame 1; sample_frame 2; sample_frame 3] 1%nat);
    try reflexivity.
  simpl. lia.
Defined.

(** ** The reader as a whole *)

Section WholeReader.
Context {ext : Externals}.

(** X14.  When a format handler reports [RTP_OK] and returns no frame, the
    two delivery modes differ: with no hook installed nothing reaches the
    queue, but an installed hook is called, with a null frame. *)
Theorem null_frame_reaches_hook_only (dgram : list Z) (s s1 : loop_state) :
  12 < Z.of_nat (length dgram) ->
  dispatch (frame_of_datagram dgram)
    (mk_loop (emit (EvLog (DEBUG_got_bytes (Z.of_nat (length dgram))))
                (set_recv_buffer (recv_into (recv_buffer_ (rd s)) dgram) (rd s)))
             (fu s) (err s))
    = (None, s1) ->
  err s1 = RTP_OK ->
  exists s',
    receive_one (RecvData dgram true) s = IterContinue s' /\
    (recv_hook_ (rd s) = None ->
     framesOut_ (rd s') = framesOut_ (rd s) /\
     delivered (trace_ (rd s')) = delivered (trace_ (rd s))) /\
    (forall h, recv_hook_ (rd s) = Some h ->
     framesOut_ (rd s') = framesOut_ (rd s) /\
     hook_calls (trace_ (rd s'))
       = hook_calls (trace_ (rd s)) ++ [(h, recv_hook_arg_ (rd s), None)]).
Proof.
  intros Hlen Hd He.
  eexists. split; [rewrite receive_one_data by exact Hlen; cbv zeta;
                   rewrite Hd, He; reflexivity|].
  cbn [rd].
  apply dispatch_same_calls in Hd. cbn [rd] in Hd.
  assert (H0 : same_calls (rd s) (rd s1)).
  { eapply same_calls_trans; [|exact Hd].
    eapply same_calls_trans; [apply same_calls_recv_buffer | apply same_calls_log]. }
  destruct H0 as [(_ & Q & _ & Hh & Harg & Hdel) Hc].
  unfold hand_over, recv_hook_installed, recv_hook. simpl. rewrite Hh. split.
  - intros Hr. rewrite Hr. simpl. rewrite delivered_app, Hdel. simpl.
    now rewrite app_nil_r.
  - intros h Hr. rewrite Hr. simpl. rewrite Q, Harg. split; [reflexivity|].
    rewrite !hook_calls_app. simpl. now rewrite app_nil_r, Hc.
Qed.

(** X15.  In hook mode a consumer calling [pull_frame] on an empty queue is
    never served: however many datagrams the loop has received, the queue
    is still empty and the call keeps sleeping. *)
Theorem pull_frame_starves_in_hook_mode
  (evs : list recv_result) (s : loop_state) (h : hook_t) (n : nat)
  (bc bl : list env_action) :
  active (rd s) = true -> recv_hook_ (rd s) = Some h -> framesOut_ (rd s) = [] ->
  pull_frame (mk_schedule (repeat [] n) bc bl)
             (rd (loop_final (receiver_loop evs s)))
    = PullWaiting (slept n (rd (loop_final (receiver_loop evs s)))).
Proof.
  intros Ha Hh Hq.
  destruct (receiver_loop_summary evs s Ha) as (s' & new & H & _ & D).
  assert (E : rd (loop_final (receiver_loop evs s)) = rd s')
    by (rewrite H; now destruct (existsb is_recv_fail evs)).
  rewrite E. destruct D as (D1 & _ & _ & _ & _ & _ & D7).
  destruct (D7 h Hh) as [Q _]. rewrite Hq in Q. rewrite Ha in D1.
  unfold pull_frame. simpl.
  rewrite <- (app_nil_r (repeat [] n)).
  rewrite (pull_wait_idle n [] (rd s') D1 Q).
  destruct (slept_fields n (rd s')) as (H1 & H2 & _).
  simpl. now rewrite H2, Q, H1, D1.
Qed.

(** X16.  The destructor of a reader whose receive buffer was allocated
    (the constructor leaves [recv_buffer_] unset, so on a reader that was
    never started the [delete] is not defined) deletes that buffer, stops
    the reader and leaves the queue in place: afterwards [active()] is
    false, any [pull_frame] answers null at once without sleeping and
    without taking a frame, and the receive loop leaves at its next test of
    the flag without reading a datagram. *)
Theorem reader_delete_stops_reader
  (d : frame_ptr -> rtp_error_t) (r : reader) (sch : schedule)
  (evs : list recv_result) (fu0 : list rtp_frame) (e : rtp_error_t) :
  recv_buffer_ r <> [] ->
  delete_uninitialised (reader_delete d r) = false /\
  recv_buffer_ (after_delete (reader_delete d r)) = [] /\
  active (after_delete (reader_delete d r)) = false /\
  framesOut_ (after_delete (reader_delete d r)) = framesOut_ r /\
  pull_frame sch (after_delete (reader_delete d r))
    = PullReturned None (env_run (before_check sch) (after_delete (reader_delete d r))) /\
  receiver_loop evs (mk_loop (after_delete (reader_delete d r)) fu0 e)
    = LoopExited
        (mk_loop (emit (EvLog INFO_receiver_exiting) (after_delete (reader_delete d r)))
                 fu0 e).
Proof.
  intros Hbuf.
  rewrite reader_delete_spec. cbn [after_delete delete_uninitialised].
  split; [destruct (recv_buffer_ r); [congruence | reflexivity]|].
  split; [reflexivity|]. split; [reflexivity|]. split; [reflexivity|]. split.
  - unfold pull_frame. rewrite pull_wait_inactive by reflexivity.
    now rewrite env_run_inactive.
  - now destruct evs.
Qed.



End WholeReader.

Lemma receiver_loop_ends_only_on_failure_witness :
  receiver_loop (ext := sample_externals)
    [RecvData header_only_packet true; RecvData unknown_type_packet false;
     RecvFail 11; RecvData one_byte_packet true]
    (mk_loop started_reader [] RTP_OK)
  = LoopReturned (loop_final (receiver_loop (ext := sample_externals)
      [RecvData header_only_packet true; RecvData unknown_type_packet false;
       RecvFail 11; RecvData one_byte_packet true]
      (mk_loop started_reader [] RTP_OK))).
Proof.
  apply (receiver_loop_ends_only_on_failure (ext := sample_externals)
           [RecvData header_only_packet true; RecvData unknown_type_packet false;
            RecvFail 11; RecvData one_byte_packet true]
           (mk_loop started_reader [] RTP_OK)).
  reflexivity.
Defined.

Lemma delivery_modes_exclusive_witness :
  exists new,
    delivered (trace_ (rd (loop_final (receiver_loop (ext := sample_externals)
       [RecvData one_byte_packet true; RecvData one_byte_packet true]
       (mk_loop hooked_reader [] RTP_OK)))))
      = delivered (trace_ hooked_reader) ++ new /\
    framesOut_ (rd (loop_final (receiver_loop (ext := sample_externals)
       [RecvData one_byte_packet true; RecvData one_byte_packet true]
       (mk_loop hooked_reader [] RTP_OK)))) = [] /\
    hook_calls (trace_ (rd (loop_final (receiver_loop (ext := sample_externals)
       [RecvData one_byte_packet true; RecvData one_byte_packet true]
       (mk_loop hooked_reader [] RTP_OK)))))
      = map (fun f => (7%nat, 42, f)) new.
Proof.
  destruct (delivery_modes_exclusive (ext := sample_externals)
              [RecvData one_byte_packet true; RecvData one_byte_packet true]
              (mk_loop hooked_reader [] RTP_OK) eq_refl)
    as (new & H1 & H2 & _).
  exists new. split; [exact H1|].
  exact (H2 7%nat eq_refl).
Defined.


Lemma null_frame_reaches_hook_only_witness :
  exists s',
    receive_one (ext := null_externals) (RecvData one_byte_packet true)
      (mk_loop hooked_reader [] RTP_NOT_READY) = IterContinue s' /\
    hook_calls (trace_ (rd s')) = [(7%nat, 42, None)] /\
    framesOut_ (rd s') = [].
Proof.
  destruct (null_frame_reaches_hook_only (ext := null_externals) one_byte_packet
              (mk_loop hooked_reader [] RTP_NOT_READY)
              (mk_loop (emit (EvLog (DEBUG_got_bytes 13))
                          (set_recv_buffer
                             (recv_into (recv_buffer_ hooked_reader) one_byte_packet)
                             hooked_reader))
                       [] RTP_OK))
    as (s' & H1 & _ & H3); try reflexivity.
  exists s'. split; [exact H1|].
  destruct (H3 7%nat eq_refl) as [Q C]. split; [exact C | exact Q].
Defined.

Lemma pull_frame_starves_in_hook_mode_witness :
  pull_frame (mk_schedule (repeat [] 3) [] [])
    (rd (loop_final (receiver_loop (ext := sample_externals)
           [RecvData one_byte_packet true; RecvData one_byte_packet true]
           (mk_loop hooked_reader [] RTP_OK))))
  = PullWaiting (slept 3
      (rd (loop_final (receiver_loop (ext := sample_externals)
             [RecvData one_byte_packet true; RecvData one_byte_packet true]
             (mk_loop hooked_reader [] RTP_OK))))).
Proof.
  apply (pull_frame_starves_in_hook_mode (ext := sample_externals)
           [RecvData one_byte_packet true; RecvData one_byte_packet true]
           (mk_loop hooked_reader [] RTP_OK) 7%nat 3%nat [] []); reflexivity.
Defined.

Lemma reader_delete_stops_reader_witness :
  delete_uninitialised (reader_delete sample_dealloc started_reader) = false /\
  active (after_delete (reader_delete sample_dealloc started_reader)) = false.
Proof.
  assert (Hbuf : recv_buffer_ started_reader <> []) by (simpl; discriminate).
  destruct (reader_delete_stops_reader (ext := sample_externals) sample_dealloc
              started_reader quiet [] [] RTP_OK Hbuf)
    as (H1 & _ & H3 & _).
  split; [exact H1 | exact H3].
Defined.

